(** * sanic_routing.router: a shallow embedding of [BaseRouter]

    The development follows [src/sanic_routing/router.py]:

    - [Line], exceptions and Python string helpers;
    - [optimize], the pass that inserts [raise NotFound] lines, and
      [_render], which assembles the matcher source;
    - the control flow of the generated source ([run]), and the
      indentation check Python's [compile] performs on it;
    - the router state, [add], [finalize] and [resolve];
    - the properties of the routing specification, one theorem each.

    Python objects that are shared and mutated ([Route]) live in a store
    indexed by object identity; the two route tables hold identities. *)

From stdpp Require Import gmap strings list sorting pretty.

Open Scope Z_scope.

(** ** Exceptions *)

(** The exception classes the router can raise.  [UserError name base]
    is a class defined by the application (a router is constructed with
    the classes it raises), deriving from [base]. *)
Inductive exn_class : Type :=
  | NotFound
  | ValueError
  | IndexError
  | KeyError
  | TypeError
  | AttributeError
  | SyntaxError
  | Exception
  | UserError (name : string) (base : exn_class).

(** [isinstance(e, ValueError)], what [except ValueError] tests. *)
Fixpoint is_ValueError (c : exn_class) : bool :=
  match c with
  | ValueError => true
  | UserError _ base => is_ValueError base
  | _ => false
  end.

(** A raised exception: its class and, when given, its argument. *)
Record exn : Type := Exn { exn_cls : exn_class; exn_msg : option string }.

Inductive result (A : Type) : Type :=
  | Ok (a : A)
  | Raise (e : exn).
Arguments Ok {A} a.
Arguments Raise {A} e.

(** ** Lines of generated source *)

(** The attributes of a [Line] that the router reads and writes:
    [line.src], [line.indent], [line.offset] and [x.render]. *)
Record Line : Type := Build_Line {
  src : string;
  indent : Z;
  offset : Z;
  render : bool
}.

(** Modelled from the spec: the class [Line] is imported from
    [sanic_routing.line], which is not among the sources.  The router only
    ever builds lines as [Line(src, indent)]; such a line is taken to have no
    offset and to be rendered, as the header [def find_route(...)] built this
    way must be. *)
Definition new_Line (s : string) (i : Z) : Line :=
  {| src := s; indent := i; offset := 0; render := true |}.

Definition set_indent (i : Z) (l : Line) : Line :=
  {| src := src l; indent := i; offset := offset l; render := render l |}.

(** [s.startswith(p)] *)
Definition startswith (s p : string) : bool := String.prefix p s.

(** ** [BaseRouter.optimize] *)

(** The test guarding the first [while] loop. *)
Definition opens_check (line : Line) : bool :=
  startswith (src line) "if"
  || startswith (src line) "elif"
  || startswith (src line) "return"
  || startswith (src line) "basket".

(** The values [idnt] takes in [while idnt < hi: ...; idnt += 1] started at
    [lo]: [lo, lo+1, ..., hi-1]. *)
Definition levels (lo hi : Z) : list Z :=
  (λ k : nat, lo + Z.of_nat k) <$> seq 0 (Z.to_nat (hi - lo)).

(** [insert_at.add((num, idnt))] for all those values. *)
Definition add_levels (num : nat) (lo hi : Z) (insert_at : gset (nat * Z))
  : gset (nat * Z) :=
  insert_at ∪ list_to_set ((λ k, (num, k)) <$> levels lo hi).

(** The [for num, line in enumerate(src)] loop.  [prev_line] is
    [src[num - 1]]: the line handled in the previous iteration, with its
    indent already updated, and at [num = 0] the last line of the list
    ([src[-1]]), not yet updated.  The result is the list with the updated
    indents and the final [insert_at]. *)
Fixpoint optimize_loop (num : nat) (prev_line : Line) (offset0 current : Z)
    (insert_at : gset (nat * Z)) (lines : list Line)
  : list Line * gset (nat * Z) :=
  match lines with
  | [] => ([], insert_at)
  | line :: rest =>
    let offset1 :=
      if bool_decide (indent line < current) && negb (startswith (src line) ".")
      then 0 else offset0 in
    let insert_at1 :=
      if opens_check line
      then add_levels num (indent line + 1) (indent prev_line) insert_at
      else insert_at in
    let offset2 := offset1 + offset line in
    let line' := set_indent (indent line + offset2) line in
    let '(rest', insert_at2) :=
      optimize_loop (S num) line' offset2 (indent line') insert_at1 rest in
    (line' :: rest', insert_at2)
  end.

(** The sort key [(x[0] * -1, x[1])], compared as Python compares tuples. *)
Definition insert_key_le (a b : nat * Z) : Prop :=
  (b.1 < a.1)%nat ∨ (a.1 = b.1 ∧ a.2 ≤ b.2).

Global Instance insert_key_le_dec a b : Decision (insert_key_le a b).
Proof. unfold insert_key_le. apply _. Defined.

(** [l.insert(n, x)]; past the end it appends, as Python does. *)
Definition list_insert_at {A} (n : nat) (x : A) (l : list A) : list A :=
  take n l ++ x :: drop n l.

(** [Line(f"raise NotFound('{indent}//{i}')", indent)] *)
Definition raise_line (idnt : Z) (i : nat) : Line :=
  new_Line ("raise NotFound('" +:+ pretty idnt +:+ "//" +:+ pretty i +:+ "')")
           idnt.

(** One iteration of the last loop: draw [i] from the counter [TMP] and
    insert the line. *)
Definition insert_raise (st : list Line * nat) (x : nat * Z) : list Line * nat :=
  (list_insert_at x.1 (raise_line x.2 st.2) st.1, S st.2).

(** [optimize(src)].  [TMP] is the module-level counter; the list is
    returned instead of being updated in place.  On the empty list
    [src[-1]] raises [IndexError]. *)
Definition optimize (TMP : nat) (lines : list Line) : result (list Line * nat) :=
  match last lines with
  | None => Raise (Exn IndexError None)
  | Some last_line =>
    let '(lines1, insert_at) := optimize_loop 0 last_line 0 0 ∅ lines in
    match last lines1 with
    | None => Raise (Exn IndexError None)
    | Some prev_line =>
      let insert_at1 := add_levels (length lines1) 1 (indent prev_line) insert_at in
      Ok (foldl insert_raise (lines1, TMP)
                (merge_sort insert_key_le (elements insert_at1)))
    end
  end.

(** ** [BaseRouter._render]: assembling the source *)

Definition header_line : Line := new_Line "def find_route(parts, router, basket):" 0.
Definition static_if_line : Line := new_Line "if parts in router.static_routes:" 1.
Definition static_return_line : Line :=
  new_Line "return router.static_routes[parts], None" 2.
Definition num_line : Line := new_Line "num = len(parts)" 1.

(** The list [src] handed to [optimize]: the header, the static lookup when
    [self.static_routes] is not empty, and, when [self.dynamic_routes] is not
    empty, the segment count followed by [self.tree.render()]. *)
Definition render_lines (has_static has_dynamic : bool) (tree_lines : list Line)
  : list Line :=
  [header_line]
  ++ (if has_static then [static_if_line; static_return_line] else [])
  ++ (if has_dynamic then num_line :: tree_lines else []).

(** ** Control flow of the generated source *)

(** The statements the generated source is made of.  A line ending in a
    colon that is not [def], [if] or [elif] opens a block the development
    gives no meaning to. *)
Inductive kind : Type :=
  | KDef | KIf | KElif | KReturn | KRaise | KSimple | KOther.

Fixpoint ends_with_colon (s : string) : bool :=
  match s with
  | "" => false
  | String c "" => bool_decide (String c "" = ":")
  | String _ s' => ends_with_colon s'
  end.

Definition kind_of (l : Line) : kind :=
  if startswith (src l) "def " then KDef
  else if startswith (src l) "if " then KIf
  else if startswith (src l) "elif " then KElif
  else if startswith (src l) "return" then KReturn
  else if startswith (src l) "raise" then KRaise
  else if ends_with_colon (src l) then KOther
  else KSimple.

Global Instance kind_eq_dec : EqDecision kind.
Proof. solve_decision. Defined.

Definition is_opener (l : Line) : bool :=
  match kind_of l with
  | KDef | KIf | KElif | KOther => true
  | _ => false
  end.


(** Where control stands between two lines: running a block ([Seq]);
    looking for the end of the body of a conditional at level [d] whose test
    was false ([Skip d]); or, a branch of a chain at level [d] having run to
    its end, passing over the remaining [elif] branches ([SkipChain d]). *)
Inductive mode : Type :=
  | Seq
  | Skip (d : Z)
  | SkipChain (d : Z).

(** How a call of the procedure ends: a [return] line is reached, a
    [raise] line is reached, control runs off the end of the body (the call
    then yields [None]), or a line outside the fragment is met. *)
Inductive outcome (St : Type) : Type :=
  | Returned (l : Line) (st : St)
  | Rejected (l : Line)
  | EndOfBody (st : St)
  | Unsupported (l : Line).
Arguments Returned {St} l st.
Arguments Rejected {St} l.
Arguments EndOfBody {St} st.
Arguments Unsupported {St} l.

Section run.
Context {St : Type}.
(** The truth of the test of an [if]/[elif] line and the effect of a
    simple statement, in a state of the local variables. *)
Variable cond : Line → St → bool.
Variable assign : Line → St → St.

(** [run m st body] executes the lines of [body] in order.  It yields the
    lines that were executed (tests evaluated, statements run) and the
    outcome. *)
Fixpoint run (m : mode) (st : St) (body : list Line) : list Line * outcome St :=
  match body with
  | [] => ([], EndOfBody st)
  | l :: rest =>
    let passed_over :=
      match m with
      | Seq => false
      | Skip d => bool_decide (d < indent l)
      | SkipChain d =>
        bool_decide (d < indent l)
        || (bool_decide (indent l = d) && bool_decide (kind_of l = KElif))
      end in
    if passed_over then run m st rest
    else
      let executed (r : list Line * outcome St) := (l :: r.1, r.2) in
      let test :=
        if cond l st then executed (run Seq st rest)
        else executed (run (Skip (indent l)) st rest) in
      match kind_of l with
      | KReturn => ([l], Returned l st)
      | KRaise => ([l], Rejected l)
      | KIf => test
      | KElif =>
        match m with
        | Skip d =>
          if bool_decide (indent l = d) then test
          else run (SkipChain (indent l)) st rest
        | _ => run (SkipChain (indent l)) st rest
        end
      | KSimple => executed (run Seq (assign l st) rest)
      | KDef | KOther => ([l], Unsupported l)
      end
  end.
End run.

(** Python's [compile], as far as the indentation of the lines decides.
    [open] is the tokenizer's stack of indentation levels, the innermost
    first.  A line that leaves blocks must return to a level of the stack;
    Python raises [IndentationError] otherwise. *)
Fixpoint dedent_to (i : Z) (open : list Z) : option (list Z) :=
  match open with
  | [] => None
  | d :: open' =>
    if bool_decide (d = i) then Some open
    else if bool_decide (i < d) then dedent_to i open'
    else None
  end.

(** A line that opens a block is followed by a deeper line, which opens a
    level; any other line is followed by a line at its level or at the level
    of a block around it; the last line opens no block. *)
Fixpoint blocks_from (open : list Z) (lines : list Line) : bool :=
  match lines with
  | [] => true
  | l :: rest =>
    match rest with
    | [] => negb (is_opener l)
    | l' :: _ =>
      if is_opener l
      then bool_decide (indent l < indent l') && blocks_from (indent l' :: open) rest
      else match dedent_to (indent l') open with
           | Some open' => blocks_from open' rest
           | None => false
           end
    end
  end.

Definition blocks_ok (lines : list Line) : bool :=
  match lines with
  | [] => true
  | l :: _ => blocks_from [indent l] lines
  end.


(** The compiled procedure is kept as the lines of its body. *)
Definition compile (lines : list Line) : result (list Line) :=
  match lines with
  | l :: body =>
    if bool_decide (kind_of l = KDef) && bool_decide (indent l = 0)
       && blocks_ok lines
    then Ok body
    else Raise (Exn SyntaxError None)
  | [] => Raise (Exn SyntaxError None)
  end.

(** ** Python string operations used by the router *)

(** [needle in s] *)
Fixpoint str_in (needle s : string) : bool :=
  String.prefix needle s
  || match s with
     | "" => false
     | String _ s' => str_in needle s'
     end.

Fixpoint char_in (c : Ascii.ascii) (chars : string) : bool :=
  match chars with
  | "" => false
  | String c' chars' => bool_decide (c = c') || char_in c chars'
  end.

(** [s.lstrip(chars)], [s.rstrip(chars)] and [s.strip(chars)]: [chars] is
    a set of characters. *)
Fixpoint lstrip (chars s : string) : string :=
  match s with
  | "" => ""
  | String c s' => if char_in c chars then lstrip chars s' else s
  end.

Definition rstrip (chars s : string) : string :=
  String.rev (lstrip chars (String.rev s)).

Definition strip (chars s : string) : string := rstrip chars (lstrip chars s).

(** The scan of [s.split(sep)] for a non-empty [sep]: [cur] is the piece
    being read, and [skip] counts the characters of a separator just
    recognised that are still to be passed. *)
Fixpoint split_scan (sep : string) (skip : nat) (cur s : string) : list string :=
  match s with
  | "" => [cur]
  | String c s' =>
    match skip with
    | S k => split_scan sep k cur s'
    | O =>
      if String.prefix sep s
      then cur :: split_scan sep (String.length sep - 1) "" s'
      else split_scan sep 0 (cur +:+ String c "") s'
    end
  end.

(** [s.split(sep)]; an empty separator raises [ValueError]. *)
Definition split (sep s : string) : result (list string) :=
  if bool_decide (sep = "") then Raise (Exn ValueError (Some "empty separator"))
  else Ok (split_scan sep 0 "" s).

(** [s[1:]] *)
Definition drop_first (s : string) : string :=
  match s with
  | "" => ""
  | String _ s' => s'
  end.

(** ** Routes and the router state *)

(** Keys of the route tables: a tuple of path segments, or a route name. *)
Inductive key : Type :=
  | KParts (p : list string)
  | KName (n : string).

Global Instance key_eq_dec : EqDecision key.
Proof. solve_decision. Defined.

Global Instance key_countable : Countable key.
Proof.
  refine (inj_countable'
            (λ k, match k with KParts p => inl p | KName n => inr n end)
            (λ s, match s with inl p => KParts p | inr n => KName n end) _).
  by intros [].
Defined.

(** Identities of [Route] objects. *)
Abbreviation loc := nat (only parsing).

(** Modelled from the spec: the class [Route] is imported from
    [sanic_routing.route], which is not among the sources.  Section 3 of the
    specification gives a route its parts (the segments of the path after
    delimiter stripping), the flag [static], its requirements, its optional
    name and its handlers; section 4.5 keys handler lookup by path and
    method. *)
Record Route : Type := Build_Route {
  parts : list string;
  static : bool;
  name : option string;
  requirements : option (list (string * string));
  handlers : gmap (string * string) string
}.

(** Modelled from the spec: [route.add_handler(path, handler, method)]
    attaches the handler; the last registration for a path and method wins
    (section 4.1). *)
Definition add_handler (path handler method : string) (route : Route) : Route :=
  {| parts := parts route; static := static route; name := name route;
     requirements := requirements route;
     handlers := <[(path, method) := handler]> (handlers route) |}.

(** Modelled from the spec: the constructor [Route(router, path, name,
    requirements)] splits the path it is given into its parts; a pattern with
    no placeholder marker is static (sections 3 and 6). *)
Definition new_Route (delimiter path : string) (name : option string)
    (requirements : option (list (string * string))) : result Route :=
  match split delimiter path with
  | Raise e => Raise e
  | Ok ps =>
    Ok {| parts := ps; static := negb (str_in "<" path); name := name;
          requirements := requirements; handlers := ∅ |}
  end.

(** The attributes of a [BaseRouter].  [DEFAULT_METHOD] and
    [ALLOWED_METHODS] are class attributes, which a subclass overrides.
    [objects] is the store of the [Route] objects the tables refer to.
    [find_route_src] is kept as the lines that are joined into the text;
    [find_route] is unset until [_render] compiles it. *)
Record Router : Type := Build_Router {
  DEFAULT_METHOD : string;
  ALLOWED_METHODS : list string;
  static_routes : gmap key loc;
  dynamic_routes : gmap key loc;
  objects : gmap loc Route;
  delimiter : string;
  exception : exn_class;
  method_handler_exception : exn_class;
  finalized : bool;
  find_route_src : option (list Line);
  find_route : option (list Line)
}.

(** [BaseRouter.__init__], for a subclass with the given class attributes. *)
Definition new_Router (default_method : string) (allowed_methods : list string)
    (delimiter : string) (exception method_handler_exception : exn_class) : Router :=
  {| DEFAULT_METHOD := default_method; ALLOWED_METHODS := allowed_methods;
     static_routes := ∅; dynamic_routes := ∅; objects := ∅;
     delimiter := delimiter; exception := exception;
     method_handler_exception := method_handler_exception;
     finalized := false; find_route_src := None; find_route := None |}.

Definition set_routes (is_static : bool) (routes : gmap key loc)
    (objs : gmap loc Route) (r : Router) : Router :=
  {| DEFAULT_METHOD := DEFAULT_METHOD r; ALLOWED_METHODS := ALLOWED_METHODS r;
     static_routes := if is_static then routes else static_routes r;
     dynamic_routes := if is_static then dynamic_routes r else routes;
     objects := objs;
     delimiter := delimiter r; exception := exception r;
     method_handler_exception := method_handler_exception r;
     finalized := finalized r; find_route_src := find_route_src r;
     find_route := find_route r |}.

Definition set_finalized (b : bool) (r : Router) : Router :=
  {| DEFAULT_METHOD := DEFAULT_METHOD r; ALLOWED_METHODS := ALLOWED_METHODS r;
     static_routes := static_routes r; dynamic_routes := dynamic_routes r;
     objects := objects r;
     delimiter := delimiter r; exception := exception r;
     method_handler_exception := method_handler_exception r;
     finalized := b; find_route_src := find_route_src r;
     find_route := find_route r |}.

Definition set_find_route_src (s : list Line) (r : Router) : Router :=
  {| DEFAULT_METHOD := DEFAULT_METHOD r; ALLOWED_METHODS := ALLOWED_METHODS r;
     static_routes := static_routes r; dynamic_routes := dynamic_routes r;
     objects := objects r;
     delimiter := delimiter r; exception := exception r;
     method_handler_exception := method_handler_exception r;
     finalized := finalized r; find_route_src := Some s;
     find_route := find_route r |}.

Definition set_find_route (code : list Line) (r : Router) : Router :=
  {| DEFAULT_METHOD := DEFAULT_METHOD r; ALLOWED_METHODS := ALLOWED_METHODS r;
     static_routes := static_routes r; dynamic_routes := dynamic_routes r;
     objects := objects r;
     delimiter := delimiter r; exception := exception r;
     method_handler_exception := method_handler_exception r;
     finalized := finalized r; find_route_src := find_route_src r;
     find_route := Some code |}.

(** ** [BaseRouter.add] *)

(** The argument [methods]: absent, one string, or a list of strings. *)
Inductive methods_arg : Type :=
  | MethodsNone
  | MethodsStr (s : string)
  | MethodsList (l : list string).

(** [not methods] *)
Definition methods_falsy (methods : methods_arg) : bool :=
  match methods with
  | MethodsNone => true
  | MethodsStr s => bool_decide (s = "")
  | MethodsList l => bool_decide (l = [])
  end.

(** The first two statements of [add]: defaulting, then wrapping of a
    scalar. *)
Definition normalize_methods (r : Router) (methods : methods_arg) : list string :=
  let methods1 :=
    if methods_falsy methods then MethodsList [DEFAULT_METHOD r] else methods in
  match methods1 with
  | MethodsList l => l
  | MethodsStr s => [s]
  | MethodsNone => []
  end.

(** [any(method not in self.ALLOWED_METHODS for method in methods)] *)
Definition any_not_allowed (r : Router) (methods : list string) : bool :=
  existsb (λ method, negb (bool_decide (method ∈ ALLOWED_METHODS r))) methods.

(** [if name:] *)
Definition name_truthy (name : option string) : option string :=
  match name with
  | Some n => if bool_decide (n = "") then None else Some n
  | None => None
  end.

(** [add] yields what the call does (returns or raises) and the router as
    the call leaves it.  The [Route] built by [add] enters the store only
    when it is kept. *)
Definition add (r : Router) (path handler : string) (methods : methods_arg)
    (name : option string) (requirements : option (list (string * string)))
  : result unit * Router :=
  let methods := normalize_methods r methods in
  if negb (bool_decide (ALLOWED_METHODS r = [])) && any_not_allowed r methods
  then (Raise (Exn Exception (Some "bad method")), r)
  else if finalized r
  then (Raise (Exn Exception (Some "finalized")), r)
  else
    let is_static := negb (str_in "<" path) in
    let routes := if is_static then static_routes r else dynamic_routes r in
    let path := strip (delimiter r) path in
    match new_Route (delimiter r) path name requirements with
    | Raise e => (Raise e, r)
    | Ok route =>
      let '(l, routes1, objects1) :=
        match routes !! KParts (parts route) with
        | Some l => (l, routes, objects r)
        | None =>
          let l := fresh (dom (objects r)) in
          let routes1 := <[KParts (parts route) := l]> routes in
          (l,
           match name_truthy name with
           | Some n => <[KName n := l]> routes1
           | None => routes1
           end,
           <[l := route]> (objects r))
        end in
      let objects2 :=
        foldl (λ objs method, alter (add_handler path handler method) l objs)
              objects1 methods in
      (Ok (), set_routes is_static routes1 objects2 r)
    end.

(** ** The collaborators of the router *)

(** The capture basket handed to the matcher and the parsed parameters. *)
Abbreviation Basket := (gmap string string) (only parsing).
Abbreviation Params := (gmap string string) (only parsing).

(** What the router imports and nothing among the sources defines: the
    decision tree ([sanic_routing.tree]), the parameter codec
    ([parse_parameter_basket] of [sanic_routing.utils]) and
    [Route.get_handler].  They are parameters of the development:
    - [tree_render dynamic_routes objects] is [self.tree.render()] after
      [self.tree.generate(self.dynamic_routes)] and [self.tree.finalize()];
    - [tree_cond], [tree_assign], [tree_return] and [tree_raise] give the
      lines of the tree their meaning: the truth of a test, the effect of a
      simple statement on the basket, the value of a [return] expression (a
      route and a basket, or [None]) and the exception of a [raise];
    - [parse_parameter_basket route basket] yields the parameters and the
      canonical path, or raises;
    - [get_handler router route raw_path method] yields the handler, or
      raises. *)
Record Collaborators : Type := Build_Collaborators {
  tree_render : gmap key loc → gmap loc Route → list Line;
  tree_cond : string → list string → Basket → bool;
  tree_assign : string → list string → Basket → Basket;
  tree_return : string → Router → list string → Basket
                → result (option (loc * option Basket));
  tree_raise : string → exn;
  parse_parameter_basket : Route → option Basket → result (Params * string);
  get_handler : Router → Route → string → option string → result string
}.

Section router.
Variable E : Collaborators.

(** *** [BaseRouter._render] and [BaseRouter.finalize] *)

(** [_render] yields what the call does, the router as it leaves it and
    the counter [TMP].  [do_compile = false] stops after the text. *)
Definition _render (r : Router) (TMP : nat) (do_compile : bool)
  : result unit * Router * nat :=
  let lines :=
    render_lines (negb (bool_decide (static_routes r = ∅)))
                 (negb (bool_decide (dynamic_routes r = ∅)))
                 (tree_render E (dynamic_routes r) (objects r)) in
  match optimize TMP lines with
  | Raise e => (Raise e, r, TMP)
  | Ok (lines1, TMP1) =>
    let text := List.filter render lines1 in
    let r1 := set_find_route_src text r in
    if do_compile then
      match compile text with
      | Raise e => (Raise e, r1, TMP1)
      | Ok code => (Ok (), set_find_route code r1, TMP1)
      end
    else (Ok (), r1, TMP1)
  end.

(** [finalize]: the flag is set first.  [_generate_tree] is the argument
    of [tree_render]; [route.finalize_params()] changes no attribute kept
    here. *)
Definition finalize (r : Router) (TMP : nat) (do_compile : bool)
  : result unit * Router * nat :=
  _render (set_finalized true r) TMP do_compile.

(** *** Calling the compiled matcher *)

Definition matcher_cond (r : Router) (ps : list string) (l : Line) (b : Basket)
  : bool :=
  if bool_decide (src l = src static_if_line)
  then bool_decide (is_Some (static_routes r !! KParts ps))
  else tree_cond E (src l) ps b.

Definition matcher_assign (ps : list string) (l : Line) (b : Basket) : Basket :=
  if bool_decide (src l = src num_line) then b
  else tree_assign E (src l) ps b.

Definition matcher_return (r : Router) (ps : list string) (l : Line) (b : Basket)
  : result (option (loc * option Basket)) :=
  if bool_decide (src l = src static_return_line)
  then match static_routes r !! KParts ps with
       | Some o => Ok (Some (o, None))
       | None => Raise (Exn KeyError None)
       end
  else tree_return E (src l) r ps b.

(** A line written by [optimize] raises [NotFound] with the text between
    the quotes. *)
Definition matcher_raise (l : Line) : exn :=
  if startswith (src l) "raise NotFound('"
  then Exn NotFound (Some (String.substring 16 (String.length (src l) - 18) (src l)))
  else tree_raise E (src l).

(** [self.find_route(parts, self, {})] for the compiled body [code].
    [None] stands for a run that meets a line outside the fragment. *)
Definition call_find_route (r : Router) (code : list Line) (ps : list string)
  : option (result (option (loc * option Basket))) :=
  match (run (matcher_cond r ps) (matcher_assign ps) Seq ∅ code).2 with
  | Returned l b => Some (matcher_return r ps l b)
  | Rejected l => Some (Raise (matcher_raise l))
  | EndOfBody _ => Some (Ok None)
  | Unsupported _ => None
  end.

(** *** [BaseRouter.resolve] *)

(** [if method:] *)
Definition method_args (method : option string) : list string :=
  match method with
  | Some m => if bool_decide (m = "") then [] else [m]
  | None => []
  end.

(** The body of [resolve] once [find_route] has returned [route] (the
    object [o]) and [param_basket]. *)
Definition resolve_route (r : Router) (path : string) (method : option string)
    (o : loc) (route : Route) (param_basket : option Basket)
  : result (loc * string * list string * Params) :=
  if static route then
    match get_handler E r route path method with
    | Raise e => Raise e
    | Ok handler => Ok (o, handler, [], ∅)
    end
  else
    match parse_parameter_basket E route param_basket with
    | Raise e =>
      if is_ValueError (exn_cls e) then Raise (Exn (exception r) None)
      else Raise e
    | Ok (params, raw_path) =>
      let args := method_args method in
      match get_handler E r route raw_path method with
      | Raise e => Raise e
      | Ok handler => Ok (o, handler, args, params)
      end
    end.

(** [parts = tuple(path[1:].split(self.delimiter))] *)
Definition resolve_parts (r : Router) (path : string) : result (list string) :=
  split (delimiter r) (drop_first path).

(** [resolve(path, method=method)].  The memoisation of [lru_cache] is
    left out.  The result is the route (its identity), the handler, the
    positional arguments and the parameters; [None] stands for a call the
    development gives no meaning to (a line outside the fragment, or a
    returned object that is no route). *)
Definition resolve (r : Router) (path : string) (method : option string)
  : option (result (loc * string * list string * Params)) :=
  match resolve_parts r path with
  | Raise e => Some (Raise e)
  | Ok ps =>
    match find_route r with
    | None => Some (Raise (Exn AttributeError None))
    | Some code =>
      match call_find_route r code ps with
      | None => None
      | Some (Raise e) => Some (Raise e)
      | Some (Ok None) => Some (Raise (Exn TypeError None))
      | Some (Ok (Some (o, param_basket))) =>
        match objects r !! o with
        | None => None
        | Some route => Some (resolve_route r path method o route param_basket)
        end
      end
    end
  end.

(** *** Sequences of operations *)

Inductive op : Type :=
  | OpAdd (path handler : string) (methods : methods_arg) (name : option string)
          (requirements : option (list (string * string)))
  | OpFinalize (do_compile : bool)
  | OpResolve (path : string) (method : option string).

(** The router and the counter after one operation, whether it returned or
    raised. *)
Definition step (s : Router * nat) (o : op) : Router * nat :=
  match o with
  | OpAdd path handler methods name requirements =>
    ((add s.1 path handler methods name requirements).2, s.2)
  | OpFinalize do_compile =>
    let '(_, r, TMP) := finalize s.1 s.2 do_compile in (r, TMP)
  | OpResolve _ _ => s
  end.

Definition steps (s : Router * nat) (ops : list op) : Router * nat :=
  foldl step s ops.
End router.

(** ** A small application *)

(** The example of section 8 of the specification: a static route
    [/users/profile] and a dynamic route [/users/<id:int>], with
    collaborators for exactly these routes. *)
Module Example.

Definition user_key : key := KParts ["users"; "<id:int>"].

Definition tree_lines : list Line :=
  [ new_Line "if num == 2:" 1;
    new_Line "if parts[0] == 'users':" 2;
    new_Line "basket[1] = parts[1]" 3;
    new_Line "return router.dynamic_routes[('users', '<id:int>')], basket" 3 ].

Definition render (dynamic_routes : gmap key loc) (objs : gmap loc Route)
  : list Line :=
  if bool_decide (is_Some (dynamic_routes !! user_key)) then tree_lines else [].

Definition cond (s : string) (ps : list string) (b : Basket) : bool :=
  if bool_decide (s = "if num == 2:") then bool_decide (length ps = 2%nat)
  else if bool_decide (s = "if parts[0] == 'users':")
  then bool_decide (ps !! 0%nat = Some "users")
  else false.

Definition assign (s : string) (ps : list string) (b : Basket) : Basket :=
  if bool_decide (s = "basket[1] = parts[1]")
  then match ps !! 1%nat with
       | Some v => <["1" := v]> b
       | None => b
       end
  else b.

Definition ret (s : string) (r : Router) (ps : list string) (b : Basket)
  : result (option (loc * option Basket)) :=
  match dynamic_routes r !! user_key with
  | Some o => Ok (Some (o, Some b))
  | None => Raise (Exn KeyError None)
  end.

Fixpoint all_digits (s : string) : bool :=
  match s with
  | "" => true
  | String c s' => char_in c "0123456789" && all_digits s'
  end.

(** [int(value)] fails with [ValueError] on text that is no number. *)
Definition parse (route : Route) (basket : option Basket)
  : result (Params * string) :=
  match basket with
  | Some b =>
    match b !! "1" with
    | Some v =>
      if all_digits v && negb (bool_decide (v = ""))
      then Ok ({["id" := v]}, "users/<id:int>")
      else Raise (Exn ValueError None)
    | None => Raise (Exn KeyError None)
    end
  | None => Ok (∅, "")
  end.

Definition handler_of (r : Router) (route : Route) (raw_path : string)
    (method : option string) : result string :=
  match handlers route !! (lstrip (delimiter r) raw_path,
                           default (DEFAULT_METHOD r) method) with
  | Some h => Ok h
  | None => Raise (Exn (method_handler_exception r) None)
  end.

Definition collaborators : Collaborators :=
  {| tree_render := render; tree_cond := cond; tree_assign := assign;
     tree_return := ret; tree_raise := λ _, Exn NotFound None;
     parse_parameter_basket := parse; get_handler := handler_of |}.

(** A router raising [exception] on parameter errors, with the two routes
    registered for [GET]. *)
Definition registered (exception : exn_class) : Router :=
  let r0 := new_Router "BASE" ["GET"; "POST"] "/" exception NotFound in
  let r1 := (add r0 "/users/profile" "profile" (MethodsStr "GET") None None).2 in
  (add r1 "/users/<id:int>" "show_user" (MethodsList ["GET"]) (Some "user") None).2.

Definition finalized_router (exception : exn_class) : Router :=
  (finalize collaborators (registered exception) 0 true).1.2.

(** Two registrations of the same parts, under two methods. *)
Definition users_get : Router :=
  (add (new_Router "BASE" [] "/" NotFound NotFound)
       "/users/" "list_users" (MethodsStr "GET") None None).2.

Definition users_post : Router :=
  (add users_get "users" "create_user" (MethodsStr "POST") None None).2.

(** A router whose delimiter is the placeholder marker. *)
Definition marker_first : Router :=
  (add (new_Router "BASE" [] "<" NotFound NotFound)
       "<a" "first" MethodsNone None None).2.

Definition marker_second : Router :=
  (add marker_first "a" "second" MethodsNone None None).2.

End Example.

(** ** Notions used in the statements *)

(** The route after [route.add_handler(path, handler, method)] for each
    method of the list, in order. *)
Definition add_handlers (path handler : string) (methods : list string)
    (route : Route) : Route :=
  foldl (λ rt method, add_handler path handler method rt) route methods.

(** The table [add] works on: [self.static_routes] for a path without
    placeholder marker, [self.dynamic_routes] otherwise. *)
Definition table_for (path : string) (r : Router) : gmap key loc :=
  if str_in "<" path then dynamic_routes r else static_routes r.

Definition other_table (path : string) (r : Router) : gmap key loc :=
  if str_in "<" path then static_routes r else dynamic_routes r.

(** *** [optimize], one line at a time *)

(** The loop of [optimize] seen per line: each line with its updated
    indent, paired with the levels at which a [raise] goes before it. *)
Fixpoint adjust (prev_line : Line) (offset0 current : Z) (lines : list Line)
  : list (list Z * Line) :=
  match lines with
  | [] => []
  | line :: rest =>
    let offset1 :=
      if bool_decide (indent line < current) && negb (startswith (src line) ".")
      then 0 else offset0 in
    let lv :=
      if opens_check line then levels (indent line + 1) (indent prev_line)
      else [] in
    let offset2 := offset1 + offset line in
    let line' := set_indent (indent line + offset2) line in
    (lv, line') :: adjust line' offset2 (indent line') rest
  end.

Definition at_position (num : nat) (lv : list Z) : list (nat * Z) :=
  (λ k, (num, k)) <$> lv.

(** The insertions, position by position from [num] on. *)
Fixpoint grouped (num : nat) (groups : list (list Z)) : list (list (nat * Z)) :=
  match groups with
  | [] => []
  | lv :: groups' => at_position num lv :: grouped (S num) groups'
  end.

(** The lines inserted for the levels [lv], drawing from the counter. *)
Fixpoint raises (TMP : nat) (lv : list Z) : list Line :=
  match lv with
  | [] => []
  | k :: lv' => raise_line k TMP :: raises (S TMP) lv'
  end.

(** The list once every insertion is made, and the number of lines
    inserted: before each line its [raise] lines, deepest first, and at the
    end those of [final].  The counter runs from the end of the list to its
    beginning. *)
Fixpoint woven (TMP : nat) (rows : list (list Z * Line)) (final : list Z)
  : list Line * nat :=
  match rows with
  | [] => (reverse (raises TMP final), length final)
  | row :: rows' =>
    let out := woven TMP rows' final in
    (reverse (raises (TMP + out.2) row.1) ++ row.2 :: out.1,
     (out.2 + length row.1)%nat)
  end.

(** The strict order of the sort key. *)
Definition insert_key_lt (a b : nat * Z) : Prop :=
  (b.1 < a.1)%nat ∨ (a.1 = b.1 ∧ a.2 < b.2).

(** *** Shape of the source before and after [optimize] *)







(** The levels of the executed lines never decrease: control never passes
    to a line of a shallower scope. *)
Fixpoint nondecreasing (trace : list Line) : bool :=
  match trace with
  | a :: (b :: _) as trace' => bool_decide (indent a ≤ indent b) && nondecreasing trace'
  | _ => true
  end.

(** The call ends at a [return] or at a [raise]. *)
Definition returns_or_rejects {St} (o : outcome St) : bool :=
  match o with
  | Returned _ _ | Rejected _ => true
  | _ => false
  end.

(** A run that ends at a [return] or [raise], through lines whose levels
    never decrease, the first of them at level [lo] or deeper. *)
Definition settles {St} (lo : Z) (res : list Line * outcome St) : Prop :=
  returns_or_rejects res.2 = true
  ∧ nondecreasing res.1 = true
  ∧ ∃ x, head res.1 = Some x ∧ lo ≤ indent x.

(** The source of the example application and what [optimize] makes of
    it, the counter starting at 0. *)
Definition example_source : list Line :=
  render_lines true true Example.tree_lines.

Definition example_optimized : list Line * nat :=
  match optimize 0 example_source with
  | Ok res => res
  | Raise _ => ([], 0%nat)
  end.

(** The collaborators of the example with a codec that fails on a missing
    key, whatever it is given. *)
Definition failing_codec_collaborators : Collaborators :=
  {| tree_render := Example.render; tree_cond := Example.cond;
     tree_assign := Example.assign; tree_return := Example.ret;
     tree_raise := λ _, Exn NotFound None;
     parse_parameter_basket := λ _ _, Raise (Exn KeyError None);
     get_handler := Example.handler_of |}.

(** *** Sources on which a scope stays open *)








(** *** Soundness of the route tables *)

(** Every entry of a table refers to a [Route] of the store; the route is
    static or dynamic as the table is; a parts key leads to the route with
    these parts and a name key to a route with this name. *)
Definition table_sound (is_static : bool) (table : gmap key loc)
    (objs : gmap loc Route) : Prop :=
  ∀ k o, table !! k = Some o →
    ∃ route, objs !! o = Some route
             ∧ static route = is_static
             ∧ match k with
               | KParts ps => parts route = ps
               | KName n => name route = Some n
               end.

(** Both tables are sound, and a stored route is static exactly when none
    of its parts holds the placeholder marker. *)
Definition router_sound (r : Router) : Prop :=
  table_sound true (static_routes r) (objects r)
  ∧ table_sound false (dynamic_routes r) (objects r)
  ∧ ∀ o route, objects r !! o = Some route →
      static route = negb (existsb (str_in "<") (parts route)).

(** An operation that is not [finalize] with compilation. *)
Definition no_compile (o : op) : bool :=
  match o with
  | OpFinalize true => false
  | _ => true
  end.

(** * Properties *)

(** ** Registration *)

Lemma add_finalized r path handler methods name requirements :
  finalized (add r path handler methods name requirements).2 = finalized r.
Proof.
  unfold add.
  destruct (negb _ && _); [done|].
  destruct (finalized r) eqn:Hf; [done|].
  destruct (new_Route _ _ _ _) as [route|e]; [|done].
  destruct (_ !! KParts (parts route)); simpl; done.
Qed.

Lemma finalize_finalized E r TMP do_compile :
  finalized (finalize E r TMP do_compile).1.2 = true.
Proof.
  unfold finalize, _render.
  destruct (optimize _ _) as [[lines1 TMP1]|e]; [|done].
  destruct do_compile; [|done].
  destruct (compile _); done.
Qed.

Lemma step_finalized E s o :
  finalized s.1 = true → finalized (step E s o).1 = true.
Proof.
  intros Hf. destruct o as [path handler methods name requirements|c|path method]; simpl.
  - by rewrite add_finalized.
  - pose proof (finalize_finalized E s.1 s.2 c) as H.
    destruct (finalize E s.1 s.2 c) as [[res r'] TMP']. done.
  - done.
Qed.

Lemma steps_finalized E ops : ∀ s,
  finalized s.1 = true → finalized (steps E s ops).1 = true.
Proof.
  unfold steps. induction ops as [|o ops IH]; intros s Hf; simpl; [done|].
  apply IH. by apply step_finalized.
Qed.

Lemma add_when_finalized r path handler methods name requirements :
  finalized r = true →
  add r path handler methods name requirements
  = (Raise (Exn Exception
              (Some (if negb (bool_decide (ALLOWED_METHODS r = []))
                        && any_not_allowed r (normalize_methods r methods)
                     then "bad method" else "finalized"))), r).
Proof.
  intros Hf. unfold add. destruct (negb _ && _); [done|]. by rewrite Hf.
Qed.

(** C5 (as amended).  Once [finalize] has been called, whatever operations
    follow, the flag [finalized] is true and every [add] raises and leaves
    the router, both tables included, as it was.  The exception carries
    [finalized], unless a requested method is outside a non-empty
    [ALLOWED_METHODS]: that test comes first and the exception then carries
    [bad method]. *)
Theorem add_after_finalize_fails E r TMP do_compile ops
    path handler methods name requirements :
  let s := steps E (step E (r, TMP) (OpFinalize do_compile)) ops in
  finalized s.1 = true
  ∧ add s.1 path handler methods name requirements
    = (Raise (Exn Exception
                (Some (if negb (bool_decide (ALLOWED_METHODS s.1 = []))
                          && any_not_allowed s.1 (normalize_methods s.1 methods)
                       then "bad method" else "finalized"))), s.1).
Proof.
  intros s.
  assert (finalized s.1 = true) as Hf.
  { apply steps_finalized. simpl.
    pose proof (finalize_finalized E r TMP do_compile) as H.
    destruct (finalize E r TMP do_compile) as [[res r'] TMP']. done. }
  split; [done|]. by apply add_when_finalized.
Qed.

(** C6.  On a router with a non-empty [ALLOWED_METHODS], an [add] that
    requests a method outside it (after defaulting and wrapping) raises
    [Exception("bad method")]; the router is left as it was: no route is
    created and no handler attached. *)
Theorem add_rejects_method_outside_allow_list
    r path handler methods name requirements :
  ALLOWED_METHODS r ≠ [] →
  (∃ m, m ∈ normalize_methods r methods ∧ m ∉ ALLOWED_METHODS r) →
  add r path handler methods name requirements
  = (Raise (Exn Exception (Some "bad method")), r).
Proof.
  intros Hne (m & Hin & Hout). unfold add.
  assert (any_not_allowed r (normalize_methods r methods) = true) as ->.
  { unfold any_not_allowed. apply existsb_exists. exists m.
    split; [by apply list_elem_of_In|]. by rewrite bool_decide_eq_false_2. }
  by rewrite bool_decide_eq_false_2.
Qed.

Lemma add_rejects_method_outside_allow_list_witness :
  add (new_Router "BASE" ["GET"] "/" NotFound NotFound)
      "/users" "list_users" (MethodsStr "POST") None None
  = (Raise (Exn Exception (Some "bad method")),
     new_Router "BASE" ["GET"] "/" NotFound NotFound).
Proof.
  apply (add_rejects_method_outside_allow_list
           (new_Router "BASE" ["GET"] "/" NotFound NotFound)).
  - simpl. discriminate.
  - exists "POST". split.
    + simpl. apply list_elem_of_here.
    + simpl. intros H. apply list_elem_of_singleton in H. discriminate.
Defined.

(** C5, as stated, fails: on a finalized router whose allow-list lacks the
    requested method, [add] raises [bad method], not [finalized]. *)
Lemma add_after_finalize_bad_method :
  (finalize Example.collaborators (Example.registered NotFound) 0 true).1.1 = Ok ()
  ∧ (add (Example.finalized_router NotFound) "/about" "about"
         (MethodsStr "PUT") None None).1
    = Raise (Exn Exception (Some "bad method"))
  ∧ (add (Example.finalized_router NotFound) "/about" "about"
         (MethodsStr "PUT") None None).1
    ≠ Raise (Exn Exception (Some "finalized")).
Proof.
  split; [vm_compute; reflexivity|].
  split; [vm_compute; reflexivity|].
  vm_compute. discriminate.
Qed.

Lemma foldl_alter_add_handler path handler o methods : ∀ objs : gmap loc Route,
  foldl (λ objs method, alter (add_handler path handler method) o objs) objs methods
  = match objs !! o with
    | Some route => <[o := add_handlers path handler methods route]> objs
    | None => objs
    end.
Proof.
  unfold add_handlers.
  induction methods as [|m ms IH]; intros objs; simpl.
  - destruct (objs !! o) eqn:Ho; [|done]. by rewrite insert_id.
  - rewrite IH. rewrite lookup_alter_eq.
    destruct (objs !! o) as [route|] eqn:Ho; simpl.
    + apply map_eq. intros i. destruct (decide (i = o)) as [->|Hne].
      * by rewrite !lookup_insert_eq.
      * rewrite !lookup_insert_ne by done. by rewrite lookup_alter_ne.
    + apply map_eq. intros i. destruct (decide (i = o)) as [->|Hne].
      * by rewrite lookup_alter_eq, Ho.
      * by rewrite lookup_alter_ne.
Qed.

Lemma add_handlers_parts path handler methods : ∀ route,
  parts (add_handlers path handler methods route) = parts route
  ∧ name (add_handlers path handler methods route) = name route
  ∧ static (add_handlers path handler methods route) = static route.
Proof.
  unfold add_handlers. induction methods as [|m ms IH]; intros route; simpl; [done|].
  destruct (IH (add_handler path handler m route)) as (-> & -> & ->). done.
Qed.

(** What a successful [add] does when the parts of its path are not yet a
    key of its table. *)
Lemma add_new_route r path handler methods name requirements r' ps :
  split (delimiter r) (strip (delimiter r) path) = Ok ps →
  table_for path r !! KParts ps = None →
  add r path handler methods name requirements = (Ok (), r') →
  let o := fresh (dom (objects r)) in
  let route := {| parts := ps; static := negb (str_in "<" (strip (delimiter r) path));
                  name := name; requirements := requirements; handlers := ∅ |} in
  table_for path r'
  = match name_truthy name with
    | Some n => <[KName n := o]> (<[KParts ps := o]> (table_for path r))
    | None => <[KParts ps := o]> (table_for path r)
    end
  ∧ other_table path r' = other_table path r
  ∧ objects r'
    = <[o := add_handlers (strip (delimiter r) path) handler
                          (normalize_methods r methods) route]> (objects r).
Proof.
  intros Hsplit Hnone. unfold add, table_for, other_table in *.
  destruct (negb _ && _); [done|].
  destruct (finalized r); [done|].
  unfold new_Route. rewrite Hsplit. simpl.
  destruct (str_in "<" path); simpl in *; rewrite Hnone;
    intros [= <-]; simpl; rewrite foldl_alter_add_handler, lookup_insert_eq,
      insert_insert_eq; done.
Qed.

(** C8 (as amended).  A successful [add] with a non-empty name, whose parts
    are not yet a key of its table, indexes the new [Route] object under the
    name in the same table as under its parts: [static_routes] for a static
    path, [dynamic_routes] for a dynamic one.  The other table is unchanged. *)
Theorem add_indexes_name_in_own_table
    r path handler methods n requirements r' ps :
  n ≠ "" →
  split (delimiter r) (strip (delimiter r) path) = Ok ps →
  table_for path r !! KParts ps = None →
  add r path handler methods (Some n) requirements = (Ok (), r') →
  ∃ o route,
    table_for path r' !! KName n = Some o
    ∧ table_for path r' !! KParts ps = Some o
    ∧ objects r' !! o = Some route
    ∧ parts route = ps ∧ name route = Some n
    ∧ other_table path r' = other_table path r.
Proof.
  intros Hn Hsplit Hnone Hadd.
  destruct (add_new_route _ _ _ _ _ _ _ _ Hsplit Hnone Hadd) as (Ht & Ho & Hobj).
  simpl in Ht. rewrite bool_decide_eq_false_2 in Ht by done.
  eexists _, _. rewrite Ht, Ho, Hobj.
  rewrite lookup_insert_eq, lookup_insert_ne, !lookup_insert_eq by done.
  repeat split; apply add_handlers_parts.
Qed.

Lemma add_indexes_name_in_own_table_witness :
  ∃ o route,
    static_routes (add (new_Router "BASE" [] "/" NotFound NotFound)
                       "/about" "about" MethodsNone (Some "about") None).2
      !! KName "about" = Some o
    ∧ static_routes (add (new_Router "BASE" [] "/" NotFound NotFound)
                         "/about" "about" MethodsNone (Some "about") None).2
      !! KParts ["about"] = Some o
    ∧ objects (add (new_Router "BASE" [] "/" NotFound NotFound)
                   "/about" "about" MethodsNone (Some "about") None).2
      !! o = Some route
    ∧ parts route = ["about"] ∧ name route = Some "about"
    ∧ dynamic_routes (add (new_Router "BASE" [] "/" NotFound NotFound)
                          "/about" "about" MethodsNone (Some "about") None).2
      = ∅.
Proof.
  apply (add_indexes_name_in_own_table
           (new_Router "BASE" [] "/" NotFound NotFound)
           "/about" "about" MethodsNone "about" None _ ["about"]).
  - discriminate.
  - vm_compute. reflexivity.
  - vm_compute. reflexivity.
  - vm_compute. reflexivity.
Defined.

(** C8, as stated, fails: the name of a static route is a key of
    [static_routes], and [dynamic_routes] does not hold it. *)
Lemma static_route_name_not_in_dynamic_routes :
  (add (new_Router "BASE" [] "/" NotFound NotFound)
       "/about" "about" MethodsNone (Some "about") None).1 = Ok ()
  ∧ dynamic_routes (add (new_Router "BASE" [] "/" NotFound NotFound)
                        "/about" "about" MethodsNone (Some "about") None).2
    !! KName "about" = None
  ∧ static_routes (add (new_Router "BASE" [] "/" NotFound NotFound)
                       "/about" "about" MethodsNone (Some "about") None).2
    !! KName "about" = Some 0%nat.
Proof. vm_compute. done. Qed.

(** ** Resolution *)

(** C10.  On a router with a non-empty delimiter, [resolve] takes its
    segments from the path without its first character, whatever that
    character is, split on the delimiter, and calls the matcher on them; the
    empty path and the path [/] both give the single empty segment. *)
Theorem resolve_parts_drops_first_character r path :
  delimiter r ≠ "" →
  resolve_parts r path = Ok (split_scan (delimiter r) 0 "" (drop_first path))
  ∧ (∀ c c' s, resolve_parts r (String c s) = resolve_parts r (String c' s)
               ∧ resolve_parts r (String c s) = split (delimiter r) s)
  ∧ resolve_parts r "" = Ok [""]
  ∧ resolve_parts r "/" = Ok [""]
  ∧ ∀ E method code e,
      find_route r = Some code →
      call_find_route E r code (split_scan (delimiter r) 0 "" (drop_first path))
      = Some (Raise e) →
      resolve E r path method = Some (Raise e).
Proof.
  intros Hd.
  assert (∀ p, resolve_parts r p = Ok (split_scan (delimiter r) 0 "" (drop_first p)))
    as Hparts.
  { intros p. unfold resolve_parts, split. by rewrite bool_decide_eq_false_2. }
  split; [apply Hparts|]. split.
  { intros c c' s. rewrite !Hparts. split; [done|].
    unfold split. by rewrite bool_decide_eq_false_2. }
  split; [apply Hparts|]. split; [apply Hparts|].
  intros E method code e Hcode Hcall. unfold resolve.
  by rewrite Hparts, Hcode, Hcall.
Qed.

Lemma resolve_parts_drops_first_character_witness :
  resolve_parts (Example.finalized_router NotFound) "users/42"
  = Ok ["sers"; "42"]
  ∧ resolve_parts (Example.finalized_router NotFound) "" = Ok [""]
  ∧ resolve_parts (Example.finalized_router NotFound) "/" = Ok [""].
Proof.
  destruct (resolve_parts_drops_first_character
              (Example.finalized_router NotFound) "users/42")
    as (H1 & _ & H2 & H3 & _).
  - vm_compute. discriminate.
  - split; [|split; assumption]. rewrite H1. vm_compute. reflexivity.
Defined.

Lemma resolve_inv E r path method res :
  resolve E r path method = Some (Ok res) →
  ∃ ps code o basket route,
    resolve_parts r path = Ok ps
    ∧ find_route r = Some code
    ∧ call_find_route E r code ps = Some (Ok (Some (o, basket)))
    ∧ objects r !! o = Some route
    ∧ resolve_route E r path method o route basket = Ok res.
Proof.
  unfold resolve. intros H.
  destruct (resolve_parts r path) as [ps|e]; [|done].
  destruct (find_route r) as [code|]; [|done].
  destruct (call_find_route E r code ps) as [[[[o basket]|]|e]|] eqn:Hcall; try done.
  destruct (objects r !! o) as [route|] eqn:Ho; [|done].
  injection H as H. by eexists ps, code, o, basket, route.
Qed.

(** C9 (as amended).  In the result of a successful [resolve], the
    positional arguments are [[method]] when the matched route is dynamic
    and a non-empty method was requested; they are empty when the route is
    static, whatever method was requested, and when no method was. *)
Theorem resolve_args E r path method o handler args params :
  resolve E r path method = Some (Ok (o, handler, args, params)) →
  ∃ route,
    objects r !! o = Some route
    ∧ (static route = true → args = [])
    ∧ (static route = false →
       args = match method with
              | Some m => if bool_decide (m = "") then [] else [m]
              | None => []
              end).
Proof.
  intros H. apply resolve_inv in H as (ps & code & o' & basket & route & _ & _ & _ & Ho & H).
  unfold resolve_route in H. destruct (static route) eqn:Hs.
  - destruct (get_handler E r route path method); [|done].
    simplify_eq. exists route. rewrite Hs. done.
  - destruct (parse_parameter_basket E route basket) as [[pm raw]|e].
    + destruct (get_handler E r route raw method); [|done].
      simplify_eq. exists route. rewrite Hs. unfold method_args. done.
    + by destruct (is_ValueError _).
Qed.

Lemma resolve_args_witness :
  ∃ route,
    objects (Example.finalized_router NotFound) !! 1%nat = Some route
    ∧ (static route = true → ["GET"] = [])
    ∧ (static route = false → ["GET"] = ["GET"]).
Proof.
  apply (resolve_args Example.collaborators (Example.finalized_router NotFound)
           "/users/42" (Some "GET") 1%nat "show_user" ["GET"] {["id" := "42"]}).
  vm_compute. reflexivity.
Defined.

(** C9, as stated, fails: resolving a static route with a method returns
    no positional argument. *)
Lemma resolve_static_route_without_method_argument :
  resolve Example.collaborators (Example.finalized_router NotFound)
          "/users/profile" (Some "GET")
  = Some (Ok (0%nat, "profile", [], ∅)).
Proof. vm_compute. reflexivity. Qed.

(** C3 (as amended).  When the matcher returns a dynamic route and the
    codec raises a [ValueError], [resolve] raises [self.exception].  When no
    route matches, the matcher stops at a line written by [optimize] and
    [resolve] raises [NotFound]: the two failures have the same class when
    [self.exception] is [NotFound], the default of the constructor. *)
Theorem parameter_error_raises_router_exception
    E r path method ps code o route basket e :
  resolve_parts r path = Ok ps →
  find_route r = Some code →
  call_find_route E r code ps = Some (Ok (Some (o, basket))) →
  objects r !! o = Some route →
  static route = false →
  parse_parameter_basket E route basket = Raise e →
  is_ValueError (exn_cls e) = true →
  resolve E r path method = Some (Raise (Exn (exception r) None))
  ∧ ∀ path' method' ps' l,
      resolve_parts r path' = Ok ps' →
      (run (matcher_cond E r ps') (matcher_assign E ps') Seq ∅ code).2 = Rejected l →
      startswith (src l) "raise NotFound('" = true →
      ∃ msg, resolve E r path' method' = Some (Raise (Exn NotFound msg)).
Proof.
  intros Hps Hcode Hcall Ho Hs Hparse He. split.
  - unfold resolve. rewrite Hps, Hcode, Hcall, Ho. unfold resolve_route.
    by rewrite Hs, Hparse, He.
  - intros path' method' ps' l Hps' Hrun Hl.
    unfold resolve. rewrite Hps', Hcode. unfold call_find_route. rewrite Hrun.
    unfold matcher_raise. rewrite Hl. by eexists.
Qed.

Lemma parameter_error_raises_router_exception_witness :
  resolve Example.collaborators (Example.finalized_router NotFound)
          "/users/abc" (Some "GET")
  = Some (Raise (Exn NotFound None)).
Proof.
  eapply (parameter_error_raises_router_exception
            Example.collaborators (Example.finalized_router NotFound)
            "/users/abc" (Some "GET")).
  - vm_compute. reflexivity.
  - vm_compute. reflexivity.
  - vm_compute. reflexivity.
  - vm_compute. reflexivity.
  - vm_compute. reflexivity.
  - vm_compute. reflexivity.
  - vm_compute. reflexivity.
Defined.

(** C3, as stated, fails: on a router constructed with its own exception
    class, a parameter error raises that class and a routing miss raises
    [NotFound]. *)
Lemma parameter_error_differs_from_routing_miss :
  resolve Example.collaborators
          (Example.finalized_router (UserError "Missing" Exception))
          "/users/abc" None
  = Some (Raise (Exn (UserError "Missing" Exception) None))
  ∧ resolve Example.collaborators
            (Example.finalized_router (UserError "Missing" Exception))
            "/nothing" None
    = Some (Raise (Exn NotFound (Some "1//0"))).
Proof. split; vm_compute; reflexivity. Qed.

(** ** The empty router *)

(** C4: what the code does.  On a router without routes [_render] produces
    the header line alone, [optimize] adds nothing to it, and [compile]
    rejects it: [finalize] raises [SyntaxError] and leaves [find_route]
    unset, so that [resolve] then fails with [AttributeError] (or with the
    [ValueError] of an empty delimiter), never with a not-found exception.
    With [do_compile = false] [finalize] returns, [find_route] unset too. *)
Theorem finalize_empty_router_raises E default_method allowed_methods delim
    exc method_exc TMP :
  let r := new_Router default_method allowed_methods delim exc method_exc in
  finalize E r TMP true
  = (Raise (Exn SyntaxError None),
     set_find_route_src [header_line] (set_finalized true r), TMP)
  ∧ finalize E r TMP false
    = (Ok (), set_find_route_src [header_line] (set_finalized true r), TMP)
  ∧ ∀ do_compile path method,
      resolve E (finalize E r TMP do_compile).1.2 path method
      = Some (Raise (Exn AttributeError None))
      ∨ resolve E (finalize E r TMP do_compile).1.2 path method
        = Some (Raise (Exn ValueError (Some "empty separator"))).
Proof.
  intros r.
  assert (optimize TMP [header_line] = Ok ([header_line], TMP)) as Hopt.
  { vm_compute. reflexivity. }
  assert (∀ c, finalize E r TMP c
               = ((if c then Raise (Exn SyntaxError None) else Ok ()),
                  set_find_route_src [header_line] (set_finalized true r), TMP)) as Hfin.
  { intros c. unfold finalize, _render.
    change (static_routes (set_finalized true r)) with (∅ : gmap key loc).
    change (dynamic_routes (set_finalized true r)) with (∅ : gmap key loc).
    rewrite !bool_decide_eq_true_2 by done.
    unfold render_lines. cbn [negb app]. rewrite Hopt.
    destruct c; [|done]. cbn [List.filter header_line new_Line render].
    by vm_compute. }
  split; [apply Hfin|]. split; [apply Hfin|].
  intros c path method. rewrite Hfin. simpl.
  unfold resolve, resolve_parts. simpl.
  unfold split. case_bool_decide; [right|left]; done.
Qed.

(** ** Placeholder markers, stripping and splitting *)

Lemma prefix_single a c s :
  String.prefix (String a "") (String c s) = bool_decide (String c "" = String a "").
Proof.
  cbn [String.prefix]. destruct (Ascii.ascii_dec a c) as [->|Hne].
  - rewrite bool_decide_eq_true_2 by done. by destruct s.
  - rewrite bool_decide_eq_false_2; [done|]. by intros [= ->].
Qed.

Lemma str_in_lt_cons c s :
  str_in "<" (String c s) = bool_decide (String c "" = "<") || str_in "<" s.
Proof.
  change (str_in "<" (String c s))
    with (String.prefix "<" (String c s) || str_in "<" s).
  by rewrite prefix_single.
Qed.

Lemma str_in_lt_app s1 s2 :
  str_in "<" (s1 +:+ s2) = str_in "<" s1 || str_in "<" s2.
Proof.
  induction s1 as [|c s1 IH]; [by destruct s2|].
  change (String c s1 +:+ s2) with (String c (s1 +:+ s2)).
  rewrite !str_in_lt_cons, IH. by rewrite orb_assoc.
Qed.

Lemma str_in_lt_rev_app s1 : ∀ s2,
  str_in "<" (String.rev_app s1 s2) = str_in "<" s1 || str_in "<" s2.
Proof.
  induction s1 as [|c s1 IH]; intros s2; [by destruct s2|].
  simpl String.rev_app. rewrite IH, !str_in_lt_cons.
  destruct (bool_decide _), (str_in "<" s1), (str_in "<" s2); done.
Qed.

Lemma str_in_lt_rev s : str_in "<" (String.rev s) = str_in "<" s.
Proof.
  unfold String.rev. rewrite str_in_lt_rev_app.
  change (str_in "<" "") with false. by rewrite orb_false_r.
Qed.

Lemma char_in_not_lt c chars :
  str_in "<" chars = false → char_in c chars = true → String c "" ≠ "<".
Proof.
  induction chars as [|c' chars IH]; [done|].
  rewrite str_in_lt_cons. intros [Hc' Hs]%orb_false_elim. simpl.
  intros [Hc|Hin]%orb_prop.
  - apply bool_decide_eq_true in Hc as ->. by apply bool_decide_eq_false in Hc'.
  - by apply IH.
Qed.

Lemma str_in_lt_lstrip chars s :
  str_in "<" chars = false → str_in "<" (lstrip chars s) = str_in "<" s.
Proof.
  intros Hc. induction s as [|c s IH]; [done|].
  simpl lstrip. destruct (char_in c chars) eqn:Hin; [|done].
  rewrite IH, str_in_lt_cons.
  by rewrite (bool_decide_eq_false_2 _ (char_in_not_lt _ _ Hc Hin)).
Qed.

Lemma str_in_lt_strip chars s :
  str_in "<" chars = false → str_in "<" (strip chars s) = str_in "<" s.
Proof.
  intros Hc. unfold strip, rstrip.
  by rewrite str_in_lt_rev, !str_in_lt_lstrip, str_in_lt_rev, str_in_lt_lstrip.
Qed.

Lemma prefix_cons_inv sep c s :
  String.prefix sep (String c s) = true → sep ≠ "" →
  ∃ sep', sep = String c sep' ∧ String.prefix sep' s = true.
Proof.
  destruct sep as [|c' sep']; [done|]. cbn [String.prefix].
  destruct (Ascii.ascii_dec c' c) as [->|]; [|done]. eauto.
Qed.

(** A piece of the split holds a marker exactly when the text does,
    provided the separator holds none.  [skip] characters of the text
    belong to a separator. *)
Lemma str_in_lt_split_scan sep : 
  sep ≠ "" → str_in "<" sep = false →
  ∀ s skip cur pre,
    String.prefix pre s = true → String.length pre = skip →
    str_in "<" pre = false →
    existsb (str_in "<") (split_scan sep skip cur s)
    = str_in "<" cur || str_in "<" s.
Proof.
  intros Hne Hsep. induction s as [|c s IH]; intros skip cur pre Hpre Hlen Hlt.
  - simpl. by rewrite orb_false_r.
  - cbn [split_scan]. destruct skip as [|k].
    + destruct (String.prefix sep (String c s)) eqn:Hp.
      * destruct (prefix_cons_inv _ _ _ Hp Hne) as (sep' & -> & Hp').
        rewrite str_in_lt_cons in Hsep. apply orb_false_elim in Hsep as [Hc Hsep'].
        simpl existsb. simpl String.length. rewrite Nat.sub_0_r.
        rewrite (IH _ _ sep' Hp' eq_refl Hsep').
        rewrite (str_in_lt_cons c s), Hc. done.
      * rewrite (IH 0%nat _ "" ltac:(by destruct s) eq_refl eq_refl).
        rewrite str_in_lt_app, (str_in_lt_cons c s), (str_in_lt_cons c "").
        change (str_in "<" "") with false. rewrite orb_false_r.
        by rewrite orb_assoc.
    + destruct pre as [|c' pre']; [done|]. cbn [String.prefix] in Hpre.
      destruct (Ascii.ascii_dec c' c) as [->|]; [|done].
      rewrite str_in_lt_cons in Hlt. apply orb_false_elim in Hlt as [Hc Hlt'].
      simpl in Hlen. injection Hlen as Hlen.
      rewrite (IH _ _ pre' Hpre Hlen Hlt').
      by rewrite (str_in_lt_cons c s), Hc.
Qed.

(** Paths with the same parts are both static or both dynamic, unless the
    delimiter itself holds the placeholder marker. *)
Lemma same_parts_same_table delim path1 path2 ps :
  str_in "<" delim = false →
  split delim (strip delim path1) = Ok ps →
  split delim (strip delim path2) = Ok ps →
  str_in "<" path1 = str_in "<" path2.
Proof.
  intros Hd. unfold split. case_bool_decide as Hne; [done|].
  intros [= H1] [= H2].
  rewrite <-(str_in_lt_strip delim path1), <-(str_in_lt_strip delim path2) by done.
  pose proof (str_in_lt_split_scan delim Hne Hd (strip delim path1) 0 "" ""
                ltac:(by destruct (strip delim path1)) eq_refl eq_refl) as E1.
  pose proof (str_in_lt_split_scan delim Hne Hd (strip delim path2) 0 "" ""
                ltac:(by destruct (strip delim path2)) eq_refl eq_refl) as E2.
  rewrite H1 in E1. rewrite H2 in E2. simpl in E1, E2. congruence.
Qed.

(** ** Registration of known parts *)

Lemma alter_as_insert (f : Route → Route) o (objs : gmap loc Route) :
  match objs !! o with
  | Some route => <[o := f route]> objs
  | None => objs
  end = alter f o objs.
Proof.
  apply map_eq. intros i. destruct (decide (i = o)) as [->|Hne].
  - rewrite lookup_alter_eq. destruct (objs !! o) eqn:Ho; [|by rewrite Ho].
    by rewrite lookup_insert_eq.
  - rewrite lookup_alter_ne by done. destruct (objs !! o); [|done].
    by rewrite lookup_insert_ne.
Qed.

Lemma add_existing_route r path handler methods name requirements r' ps o :
  split (delimiter r) (strip (delimiter r) path) = Ok ps →
  table_for path r !! KParts ps = Some o →
  add r path handler methods name requirements = (Ok (), r') →
  static_routes r' = static_routes r
  ∧ dynamic_routes r' = dynamic_routes r
  ∧ objects r'
    = alter (add_handlers (strip (delimiter r) path) handler
                          (normalize_methods r methods)) o (objects r).
Proof.
  intros Hsplit Hsome. unfold add, table_for in *.
  destruct (negb _ && _); [done|].
  destruct (finalized r); [done|].
  unfold new_Route. rewrite Hsplit. simpl.
  destruct (str_in "<" path); simpl in *; rewrite Hsome;
    intros [= <-]; simpl; rewrite foldl_alter_add_handler, alter_as_insert; done.
Qed.

Lemma add_attributes r path handler methods name requirements :
  delimiter (add r path handler methods name requirements).2 = delimiter r
  ∧ DEFAULT_METHOD (add r path handler methods name requirements).2 = DEFAULT_METHOD r
  ∧ ALLOWED_METHODS (add r path handler methods name requirements).2 = ALLOWED_METHODS r.
Proof.
  unfold add.
  destruct (negb _ && _); [done|].
  destruct (finalized r); [done|].
  destruct (new_Route _ _ _ _) as [route|e]; [|done].
  destruct (_ !! KParts (parts route)); simpl; done.
Qed.

(** No [add] removes a parts key or makes it refer to another object. *)
Lemma add_keeps_parts r path handler methods name requirements ps o :
  (static_routes r !! KParts ps = Some o →
   static_routes (add r path handler methods name requirements).2 !! KParts ps = Some o)
  ∧ (dynamic_routes r !! KParts ps = Some o →
     dynamic_routes (add r path handler methods name requirements).2 !! KParts ps = Some o).
Proof.
  unfold add.
  destruct (negb _ && _); [done|].
  destruct (finalized r); [done|].
  destruct (new_Route _ _ _ _) as [route|e]; [|done].
  destruct (negb (str_in "<" path)); simpl;
    destruct (_ !! KParts (parts route)) eqn:Hl; simpl; try done.
  all: split; intros Hps; try done.
  all: assert (KParts (parts route) ≠ KParts ps) by congruence.
  all: destruct (name_truthy name); by rewrite ?lookup_insert_ne.
Qed.

Lemma finalize_attributes E r TMP do_compile :
  static_routes (finalize E r TMP do_compile).1.2 = static_routes r
  ∧ dynamic_routes (finalize E r TMP do_compile).1.2 = dynamic_routes r
  ∧ objects (finalize E r TMP do_compile).1.2 = objects r
  ∧ delimiter (finalize E r TMP do_compile).1.2 = delimiter r
  ∧ DEFAULT_METHOD (finalize E r TMP do_compile).1.2 = DEFAULT_METHOD r.
Proof.
  unfold finalize, _render.
  destruct (optimize _ _) as [[lines1 TMP1]|e]; [|done].
  destruct do_compile; [|done].
  destruct (compile _); done.
Qed.

Lemma steps_keep_parts E ops : ∀ s ps o,
  (static_routes s.1 !! KParts ps = Some o →
   static_routes (steps E s ops).1 !! KParts ps = Some o)
  ∧ (dynamic_routes s.1 !! KParts ps = Some o →
     dynamic_routes (steps E s ops).1 !! KParts ps = Some o)
  ∧ delimiter (steps E s ops).1 = delimiter s.1
  ∧ DEFAULT_METHOD (steps E s ops).1 = DEFAULT_METHOD s.1.
Proof.
  unfold steps. induction ops as [|op ops IH]; intros s ps o; simpl; [done|].
  destruct (IH (step E s op) ps o) as (IHs & IHd & -> & ->).
  assert ((static_routes s.1 !! KParts ps = Some o →
           static_routes (step E s op).1 !! KParts ps = Some o)
          ∧ (dynamic_routes s.1 !! KParts ps = Some o →
             dynamic_routes (step E s op).1 !! KParts ps = Some o)
          ∧ delimiter (step E s op).1 = delimiter s.1
          ∧ DEFAULT_METHOD (step E s op).1 = DEFAULT_METHOD s.1) as (Hs & Hd & Hdel & Hdm).
  { destruct op as [path handler methods name requirements|c|path method]; simpl.
    - destruct (add_keeps_parts s.1 path handler methods name requirements ps o).
      destruct (add_attributes s.1 path handler methods name requirements) as (? & ? & ?).
      done.
    - pose proof (finalize_attributes E s.1 s.2 c) as (Hst & Hdy & _ & Hde & Hdm).
      destruct (finalize E s.1 s.2 c) as [[res r'] TMP']. simpl in *.
      by rewrite Hst, Hdy, Hde, Hdm.
    - done. }
  split; [auto|]. split; [auto|]. done.
Qed.

Lemma add_registers r path handler methods name requirements r' ps :
  split (delimiter r) (strip (delimiter r) path) = Ok ps →
  add r path handler methods name requirements = (Ok (), r') →
  ∃ o, table_for path r' !! KParts ps = Some o
       ∧ (table_for path r !! KParts ps = None →
          o = fresh (dom (objects r)) ∧ is_Some (objects r' !! o)).
Proof.
  intros Hsplit Hadd. destruct (table_for path r !! KParts ps) as [o|] eqn:Hl.
  - destruct (add_existing_route _ _ _ _ _ _ _ _ _ Hsplit Hl Hadd) as (Hs & Hd & _).
    exists o. split; [|done]. unfold table_for in *. by rewrite Hs, Hd.
  - destruct (add_new_route _ _ _ _ _ _ _ _ Hsplit Hl Hadd) as (Ht & _ & Hobj).
    simpl in Ht, Hobj. eexists. rewrite Ht, Hobj. split.
    + destruct (name_truthy name); [rewrite lookup_insert_ne by done|];
        by rewrite lookup_insert_eq.
    + intros _. split; [done|]. by rewrite lookup_insert_eq.
Qed.

(** C7 (as amended).  On a router whose delimiter does not hold the
    placeholder marker, take two successful [add] calls whose paths have the
    same parts, with any operations in between.  The second call leaves both
    tables as they were, so their key sets too, and the parts key refers to
    the same [Route] object as after the first call; the second call
    attaches its handler for each of its methods to that object, and creates
    no other object.  When the parts were new to the first call, the object
    is the one the first call created. *)
Theorem add_same_parts_merges E r TMP ops ps
    path1 handler1 methods1 name1 requirements1 r1
    path2 handler2 methods2 name2 requirements2 r2 :
  str_in "<" (delimiter r) = false →
  split (delimiter r) (strip (delimiter r) path1) = Ok ps →
  split (delimiter r) (strip (delimiter r) path2) = Ok ps →
  add r path1 handler1 methods1 name1 requirements1 = (Ok (), r1) →
  add (steps E (r1, TMP) ops).1 path2 handler2 methods2 name2 requirements2
  = (Ok (), r2) →
  ∃ o,
    table_for path1 r1 !! KParts ps = Some o
    ∧ table_for path2 r2 !! KParts ps = Some o
    ∧ static_routes r2 = static_routes (steps E (r1, TMP) ops).1
    ∧ dynamic_routes r2 = dynamic_routes (steps E (r1, TMP) ops).1
    ∧ objects r2
      = alter (add_handlers (strip (delimiter r) path2) handler2
                            (normalize_methods r methods2))
              o (objects (steps E (r1, TMP) ops).1)
    ∧ dom (objects r2) = dom (objects (steps E (r1, TMP) ops).1)
    ∧ (table_for path1 r !! KParts ps = None →
       o = fresh (dom (objects r)) ∧ is_Some (objects r1 !! o)).
Proof.
  intros Hd Hs1 Hs2 Hadd1 Hadd2.
  destruct (add_registers _ _ _ _ _ _ _ _ Hs1 Hadd1) as (o & Ho & Hnew).
  exists o.
  pose proof (same_parts_same_table _ _ _ _ Hd Hs1 Hs2) as Hsame.
  destruct (add_attributes r path1 handler1 methods1 name1 requirements1)
    as (Hdel1 & Hdm1 & _).
  rewrite Hadd1 in Hdel1, Hdm1. simpl in Hdel1, Hdm1.
  destruct (steps_keep_parts E ops (r1, TMP) ps o) as (Hks & Hkd & Hdel & Hdm).
  simpl in Hks, Hkd, Hdel, Hdm.
  set (r1' := (steps E (r1, TMP) ops).1) in *.
  assert (table_for path2 r1' !! KParts ps = Some o) as Ho'.
  { unfold table_for in *. rewrite <-Hsame. destruct (str_in "<" path1); auto. }
  assert (split (delimiter r1') (strip (delimiter r1') path2) = Ok ps) as Hs2'.
  { by rewrite Hdel, Hdel1. }
  destruct (add_existing_route _ _ _ _ _ _ _ _ _ Hs2' Ho' Hadd2) as (Hst & Hdy & Hobj).
  rewrite Hdel, Hdel1 in Hobj.
  assert (normalize_methods r1' methods2 = normalize_methods r methods2) as Hnm.
  { unfold normalize_methods. by rewrite Hdm, Hdm1. }
  rewrite Hnm in Hobj.
  split; [done|]. split.
  { unfold table_for in *. by rewrite Hst, Hdy. }
  split; [done|]. split; [done|]. split; [done|]. split; [|done].
  rewrite Hobj. apply dom_alter_L.
Qed.

Lemma add_same_parts_merges_witness :
  ∃ o,
    table_for "/users/" Example.users_get !! KParts ["users"] = Some o
    ∧ table_for "users" Example.users_post !! KParts ["users"] = Some o
    ∧ static_routes Example.users_post = static_routes Example.users_get
    ∧ dynamic_routes Example.users_post = dynamic_routes Example.users_get
    ∧ objects Example.users_post
      = alter (add_handlers "users" "create_user" ["POST"]) o
              (objects Example.users_get)
    ∧ dom (objects Example.users_post) = dom (objects Example.users_get)
    ∧ (table_for "/users/" (new_Router "BASE" [] "/" NotFound NotFound)
         !! KParts ["users"] = None →
       o = fresh (dom (objects (new_Router "BASE" [] "/" NotFound NotFound)))
       ∧ is_Some (objects Example.users_get !! o)).
Proof.
  apply (add_same_parts_merges Example.collaborators
           (new_Router "BASE" [] "/" NotFound NotFound) 0 [] ["users"]
           "/users/" "list_users" (MethodsStr "GET") None None Example.users_get
           "users" "create_user" (MethodsStr "POST") None None Example.users_post).
  - vm_compute. reflexivity.
  - vm_compute. reflexivity.
  - vm_compute. reflexivity.
  - vm_compute. reflexivity.
  - vm_compute. reflexivity.
Defined.

(** C7, as stated, fails when the delimiter is the placeholder marker: the
    paths [<a] and [a] have the same parts, the first is dynamic and the
    second static, and the second call creates an entry and a [Route] of its
    own. *)
Lemma same_parts_in_both_tables :
  split "<" (strip "<" "<a") = Ok ["a"]
  ∧ split "<" (strip "<" "a") = Ok ["a"]
  ∧ (add (new_Router "BASE" [] "<" NotFound NotFound)
         "<a" "first" MethodsNone None None).1 = Ok ()
  ∧ (add Example.marker_first "a" "second" MethodsNone None None).1 = Ok ()
  ∧ static_routes Example.marker_first !! KParts ["a"] = None
  ∧ static_routes Example.marker_second !! KParts ["a"] = Some 1%nat
  ∧ dynamic_routes Example.marker_second !! KParts ["a"] = Some 0%nat.
Proof. vm_compute. done. Qed.

(** ** [optimize] in closed form *)

Lemma levels_nil lo hi : hi ≤ lo → levels lo hi = [].
Proof. intros H. unfold levels. by replace (Z.to_nat (hi - lo)) with 0%nat by lia. Qed.

Lemma levels_cons lo hi : lo < hi → levels lo hi = lo :: levels (lo + 1) hi.
Proof.
  intros H. unfold levels.
  replace (Z.to_nat (hi - lo)) with (S (Z.to_nat (hi - (lo + 1)))) by lia.
  simpl seq. rewrite <-fmap_S_seq. csimpl. f_equal; [lia|].
  rewrite <-list_fmap_compose. apply list_fmap_ext. intros i x _. simpl. lia.
Qed.


Lemma elem_of_levels k lo hi : k ∈ levels lo hi ↔ lo ≤ k < hi.
Proof.
  unfold levels. rewrite list_elem_of_fmap. split.
  - intros (i & -> & Hi). apply elem_of_seq in Hi. lia.
  - intros Hk. exists (Z.to_nat (k - lo)). split; [lia|]. apply elem_of_seq. lia.
Qed.

Lemma levels_sorted lo hi : StronglySorted Z.lt (levels lo hi).
Proof.
  remember (Z.to_nat (hi - lo)) as n eqn:Hn.
  revert lo Hn. induction n as [|n IH]; intros lo Hn.
  - rewrite levels_nil by lia. constructor.
  - rewrite levels_cons by lia. constructor; [apply IH; lia|].
    apply Forall_forall. intros k Hk%elem_of_levels. lia.
Qed.

Lemma adjust_groups_sorted lines : ∀ prev off cur,
  Forall (StronglySorted Z.lt) (adjust prev off cur lines).*1.
Proof.
  induction lines as [|line rest IH]; intros prev off cur; simpl; [constructor|].
  constructor; [|apply IH].
  destruct (opens_check line); [apply levels_sorted|constructor].
Qed.

Lemma optimize_loop_adjust lines : ∀ num prev off cur (insert_at : gset (nat * Z)),
  optimize_loop num prev off cur insert_at lines
  = ((adjust prev off cur lines).*2,
     insert_at ∪ list_to_set (concat (grouped num (adjust prev off cur lines).*1))).
Proof.
  induction lines as [|line rest IH]; intros num prev off cur insert_at.
  - simpl. by rewrite (right_id_L ∅ (∪)).
  - cbn [optimize_loop adjust]. rewrite IH. cbn [fmap list_fmap fst snd grouped concat].
    f_equal. rewrite list_to_set_app_L, (assoc_L (∪)). f_equal.
    destruct (opens_check line); [done|].
    unfold at_position. simpl. by rewrite (right_id_L ∅ (∪)).
Qed.

Lemma grouped_snoc groups : ∀ num lv,
  grouped num (groups ++ [lv])
  = grouped num groups ++ [at_position (num + length groups) lv].
Proof.
  induction groups as [|g groups IH]; intros num lv; simpl.
  - by rewrite Nat.add_0_r.
  - rewrite IH.
    by replace (S num + length groups)%nat with (num + S (length groups))%nat by lia.
Qed.

(** The order of the sort key. *)
Global Instance insert_key_le_trans : Transitive insert_key_le.
Proof. intros [a1 a2] [b1 b2] [c1 c2]. unfold insert_key_le. simpl. lia. Qed.

Global Instance insert_key_le_antisymm : AntiSymm (=) insert_key_le.
Proof.
  intros [a1 a2] [b1 b2]. unfold insert_key_le. simpl. intros H1 H2.
  f_equal; lia.
Qed.

Global Instance insert_key_le_total : Total insert_key_le.
Proof. intros [a1 a2] [b1 b2]. unfold insert_key_le. simpl. lia. Qed.

Lemma elem_of_grouped x groups : ∀ num,
  x ∈ concat (reverse (grouped num groups)) → (num ≤ x.1)%nat.
Proof.
  induction groups as [|g groups IH]; intros num; simpl.
  - by intros ?%elem_of_nil.
  - rewrite reverse_cons, concat_app. simpl. rewrite (right_id_L [] (++)).
    intros [H|H]%elem_of_app.
    + apply IH in H. lia.
    + unfold at_position in H. apply list_elem_of_fmap in H as (k & -> & _). done.
Qed.

Lemma grouped_strictly_sorted groups : ∀ num,
  Forall (StronglySorted Z.lt) groups →
  StronglySorted insert_key_lt (concat (reverse (grouped num groups))).
Proof.
  induction groups as [|g groups IH]; intros num Hs; simpl; [constructor|].
  apply Forall_cons in Hs as [Hg Hs].
  rewrite reverse_cons, concat_app. simpl. rewrite (right_id_L [] (++)).
  apply StronglySorted_app_2.
  - intros x1 x2 H1%elem_of_grouped H2.
    apply list_elem_of_fmap in H2 as (k & -> & _). left. simpl. lia.
  - by apply IH.
  - unfold at_position. eapply StronglySorted_fmap; [|done].
    intros x y Hxy. right. done.
Qed.

Lemma strictly_sorted_NoDup (l : list (nat * Z)) :
  StronglySorted insert_key_lt l → NoDup l.
Proof.
  induction 1 as [|x l Hl IH Hx]; constructor; [|done].
  intros Hin. rewrite Forall_forall in Hx. specialize (Hx _ Hin).
  unfold insert_key_lt in Hx. lia.
Qed.

Lemma strictly_sorted_Sorted (l : list (nat * Z)) :
  StronglySorted insert_key_lt l → Sorted insert_key_le l.
Proof.
  intros H. apply StronglySorted_Sorted.
  induction H as [|x l Hl IH Hx]; constructor; [done|].
  eapply Forall_impl; [done|]. intros y. unfold insert_key_lt, insert_key_le. lia.
Qed.

Lemma concat_reverse_Permutation {A} (ls : list (list A)) :
  concat (reverse ls) ≡ₚ concat ls.
Proof.
  induction ls as [|l ls IH]; [done|].
  rewrite reverse_cons, concat_app. simpl. rewrite (right_id_L [] (++)).
  rewrite IH. apply Permutation_app_comm.
Qed.

(** [sorted(insert_at, ...)]: the positions from the last to the first, the
    levels of a position in increasing order. *)
Lemma sorted_insertions num groups :
  Forall (StronglySorted Z.lt) groups →
  merge_sort insert_key_le
    (elements (list_to_set (concat (grouped num groups)) : gset (nat * Z)))
  = concat (reverse (grouped num groups)).
Proof.
  intros Hs. pose proof (grouped_strictly_sorted groups num Hs) as Hsorted.
  apply (Sorted_unique insert_key_le).
  - apply Sorted_merge_sort. apply _.
  - by apply strictly_sorted_Sorted.
  - rewrite merge_sort_Permutation, elements_list_to_set.
    + symmetry. apply concat_reverse_Permutation.
    + rewrite <-concat_reverse_Permutation. by apply strictly_sorted_NoDup.
Qed.

Lemma raises_length lv : ∀ t, length (raises t lv) = length lv.
Proof. induction lv as [|k lv IH]; intros t; simpl; [done|]. by rewrite IH. Qed.


(** The insertions of one position, made in the order of the sort. *)
Lemma foldl_insert_group lv : ∀ (L : list Line) t p,
  (p ≤ length L)%nat →
  foldl insert_raise (L, t) (at_position p lv)
  = (take p L ++ reverse (raises t lv) ++ drop p L, (t + length lv)%nat).
Proof.
  induction lv as [|k lv IH]; intros L t p Hp.
  - simpl. by rewrite take_drop, Nat.add_0_r.
  - cbn [at_position fmap list_fmap foldl]. fold (at_position p lv).
    unfold insert_raise at 2. cbn [fst snd]. unfold list_insert_at.
    assert (length (take p L) = p) as Hlen by (rewrite length_take; lia).
    rewrite IH by (rewrite length_app, Hlen; lia).
    rewrite take_app_length', drop_app_length' by done.
    cbn [raises length]. rewrite reverse_cons, <-!(assoc_L (++)). simpl.
    f_equal. lia.
Qed.

(** All the insertions: the list in closed form. *)
Lemma foldl_insert_woven rows : ∀ pre t final,
  foldl insert_raise (pre ++ rows.*2, t)
        (concat (reverse (grouped (length pre) (rows.*1 ++ [final]))))
  = (pre ++ (woven t rows final).1, (t + (woven t rows final).2)%nat).
Proof.
  induction rows as [|[lv l] rows IH]; intros pre t final.
  - cbn [fmap list_fmap app grouped woven fst snd].
    rewrite reverse_singleton. cbn [concat]. rewrite !(right_id_L [] (++)).
    rewrite foldl_insert_group by done.
    by rewrite take_ge, drop_ge, (right_id_L [] (++)) by done.
  - cbn [fmap list_fmap app grouped woven fst snd].
    rewrite reverse_cons, concat_app, foldl_app.
    replace (pre ++ l :: rows.*2) with ((pre ++ [l]) ++ rows.*2)
      by by rewrite <-(assoc_L (++)).
    replace (S (length pre)) with (length (pre ++ [l]))
      by (rewrite length_app; simpl; lia).
    rewrite IH. cbn [concat]. rewrite (right_id_L [] (++)).
    rewrite foldl_insert_group by (rewrite !length_app; simpl; lia).
    rewrite <-!(assoc_L (++)).
    rewrite take_app_length, drop_app_length. simpl.
    f_equal. lia.
Qed.

Lemma adjust_length lines : ∀ prev off cur,
  length (adjust prev off cur lines) = length lines.
Proof.
  induction lines as [|l lines IH]; intros prev off cur; simpl; [done|].
  by rewrite IH.
Qed.

(** [optimize] on a non-empty list. *)
Lemma optimize_woven TMP lines last_line :
  last lines = Some last_line →
  ∃ prev_line,
    last (adjust last_line 0 0 lines).*2 = Some prev_line
    ∧ optimize TMP lines
      = Ok ((woven TMP (adjust last_line 0 0 lines)
                   (levels 1 (indent prev_line))).1,
            (TMP + (woven TMP (adjust last_line 0 0 lines)
                          (levels 1 (indent prev_line))).2)%nat).
Proof.
  intros Hlast. unfold optimize. rewrite Hlast, optimize_loop_adjust.
  set (rows := adjust last_line 0 0 lines).
  destruct (last rows.*2) as [prev_line|] eqn:Hprev.
  - exists prev_line. split; [done|]. f_equal.
    unfold add_levels. rewrite (left_id_L ∅ (∪)), <-list_to_set_app_L.
    fold (at_position (length rows.*2) (levels 1 (indent prev_line))).
    assert (concat (grouped 0 rows.*1)
              ++ at_position (length rows.*2) (levels 1 (indent prev_line))
            = concat (grouped 0 (rows.*1 ++ [levels 1 (indent prev_line)]))) as ->.
    { rewrite grouped_snoc, concat_app. simpl.
      by rewrite (right_id_L [] (++)), !length_fmap. }
    rewrite sorted_insertions.
    + apply (foldl_insert_woven rows [] TMP).
    + apply Forall_app. split; [apply adjust_groups_sorted|].
      constructor; [apply levels_sorted|constructor].
  - exfalso. apply last_None in Hprev. apply fmap_nil_inv in Hprev.
    apply (f_equal length) in Hprev. unfold rows in Hprev.
    rewrite adjust_length in Hprev. destruct lines; done.
Qed.

(** ** Every scope is closed *)



Lemma set_indent_same l : set_indent (indent l + 0) l = l.
Proof. destruct l. unfold set_indent. simpl. by rewrite Z.add_0_r. Qed.

Lemma adjust_cons_no_offset a cur b rest :
  offset b = 0 →
  adjust a 0 cur (b :: rest)
  = ((if opens_check b then levels (indent b + 1) (indent a) else []), b)
      :: adjust b 0 (indent b) rest.
Proof.
  intros Hb. cbn [adjust]. rewrite Hb.
  assert ((if bool_decide (indent b < cur) && negb (startswith (src b) ".")
           then 0 else 0) = 0) as -> by by destruct (_ && _).
  by rewrite set_indent_same.
Qed.





(** ** Running a source whose scopes are closed *)

Section run_closed.
Context {St : Type} (cond : Line → St → bool) (assign : Line → St → St).


Lemma settles_weaken lo lo' (res : list Line * outcome St) :
  settles lo' res → lo ≤ lo' → settles lo res.
Proof.
  intros (Hend & Hmono & x & Hx & Hlo) Hle. split; [done|]. split; [done|].
  exists x. split; [done|]. lia.
Qed.




End run_closed.










(** ** The static lookup comes first *)

(** Whatever the tree renders, [optimize] leaves the header and the static
    lookup at the head of the source. *)
Lemma optimize_static_head TMP tl out TMP' :
  optimize TMP (header_line :: static_if_line :: static_return_line :: tl)
  = Ok (out, TMP') →
  ∃ rest, out = header_line :: static_if_line :: static_return_line :: rest.
Proof.
  assert (is_Some (last (header_line :: static_if_line :: static_return_line :: tl)))
    as [z Hz] by by apply last_is_Some.
  destruct (optimize_woven TMP _ _ Hz) as (prev & _ & ->).
  rewrite !adjust_cons_no_offset by done.
  change (opens_check header_line) with false.
  rewrite (levels_nil (indent static_if_line + 1)),
    (levels_nil (indent static_return_line + 1)) by (simpl; lia).
  assert (∀ b : bool, (if b then [] else []) = ([] : list Z)) as Hif by by intros [].
  rewrite !Hif. cbn [woven fst snd raises reverse app].
  intros [= <- _]. by eexists.
Qed.

Lemma run_static_lookup {St} (cond : Line → St → bool) assign st rest :
  cond static_if_line st = true →
  (run cond assign Seq st (static_if_line :: static_return_line :: rest)).2
  = Returned static_return_line st.
Proof.
  intros Hc. cbn [run]. change (kind_of static_if_line) with KIf.
  change (kind_of static_return_line) with KReturn. cbv iota. by rewrite Hc.
Qed.

(** C2.  After a successful [finalize], the compiled matcher called on a
    segment tuple that is a key of [static_routes] returns the route of that
    key, with [None] for the basket (nothing is captured), whatever the
    tree of the dynamic routes holds: the static lookup is the first
    statement of the procedure. *)
Theorem static_route_found_first E r0 TMP r TMP' ps o :
  finalize E r0 TMP true = (Ok (), r, TMP') →
  static_routes r !! KParts ps = Some o →
  ∃ code,
    find_route r = Some code
    ∧ call_find_route E r code ps = Some (Ok (Some (o, None))).
Proof.
  unfold finalize, _render. intros Hfin Ho.
  destruct (optimize _ _) as [[lines1 TMP1]|e] eqn:Hopt; [|done].
  destruct (compile _) as [code|e] eqn:Hcomp; [|done].
  injection Hfin as <- <-.
  change (static_routes r0 !! KParts ps = Some o) in Ho.
  assert (bool_decide (static_routes r0 = ∅) = false) as Hs.
  { apply bool_decide_eq_false. intros Hemp. by rewrite Hemp in Ho. }
  change (static_routes (set_finalized true r0)) with (static_routes r0) in Hopt.
  rewrite Hs in Hopt. unfold render_lines in Hopt. cbn [negb app] in Hopt.
  apply optimize_static_head in Hopt as (rest & ->).
  unfold compile in Hcomp.
  change (List.filter render (header_line :: static_if_line :: static_return_line :: rest))
    with (header_line :: static_if_line :: static_return_line :: List.filter render rest)
    in Hcomp.
  cbv iota in Hcomp.
  destruct (_ && blocks_ok _) in Hcomp; [|done]. injection Hcomp as <-.
  eexists. split; [done|]. unfold call_find_route.
  rewrite run_static_lookup.
  - unfold matcher_return. rewrite bool_decide_eq_true_2 by done.
    change (static_routes (set_find_route _ _)) with (static_routes r0).
    by rewrite Ho.
  - unfold matcher_cond. rewrite bool_decide_eq_true_2 by done.
    change (static_routes (set_find_route _ _)) with (static_routes r0).
    rewrite Ho. by apply bool_decide_eq_true_2.
Qed.

Lemma static_route_found_first_witness :
  ∃ code,
    find_route (Example.finalized_router NotFound) = Some code
    ∧ call_find_route Example.collaborators (Example.finalized_router NotFound)
                      code ["users"; "profile"]
      = Some (Ok (Some (0%nat, None))).
Proof.
  apply (static_route_found_first Example.collaborators
           (Example.registered NotFound) 0 (Example.finalized_router NotFound) 2).
  - vm_compute. reflexivity.
  - vm_compute. reflexivity.
Defined.

(** * Further properties *)

(** ** What [optimize] does to any list of lines *)

Lemma adjust_src lines : ∀ prev off cur,
  src <$> (adjust prev off cur lines).*2 = src <$> lines.
Proof.
  induction lines as [|l lines IH]; intros prev off cur; [done|].
  cbn [adjust fmap list_fmap snd]. f_equal. apply IH.
Qed.

Lemma adjust_no_offsets lines : ∀ prev cur,
  Forall (λ l, offset l = 0) lines → (adjust prev 0 cur lines).*2 = lines.
Proof.
  induction lines as [|l lines IH]; intros prev cur Hoff; [done|].
  apply Forall_cons in Hoff as [Hl Hoff].
  rewrite adjust_cons_no_offset by done. cbn [fmap list_fmap snd]. f_equal.
  by apply IH.
Qed.

Lemma woven_length t rows final :
  length (woven t rows final).1 = (length rows + (woven t rows final).2)%nat.
Proof.
  induction rows as [|[lv l] rows IH]; cbn [woven fst snd length].
  - by rewrite length_reverse, raises_length.
  - rewrite length_app, length_reverse, raises_length. cbn [length].
    rewrite IH. lia.
Qed.

Lemma woven_sublist t rows final : rows.*2 `sublist_of` (woven t rows final).1.
Proof.
  induction rows as [|[lv l] rows IH]; cbn [woven fst snd fmap list_fmap].
  - apply sublist_nil_l.
  - apply sublist_inserts_l. by apply sublist_skip.
Qed.

Lemma raises_are_raise_lines lv : ∀ t,
  Forall (λ l, ∃ k i, l = raise_line k i) (raises t lv).
Proof.
  induction lv as [|k lv IH]; intros t; simpl; constructor; [by eexists _, _|].
  apply IH.
Qed.

Lemma woven_lines t rows final :
  Forall (λ l, l ∈ rows.*2 ∨ ∃ k i, l = raise_line k i) (woven t rows final).1.
Proof.
  induction rows as [|[lv l] rows IH]; cbn [woven fst snd fmap list_fmap].
  - apply Forall_reverse. eapply Forall_impl; [apply raises_are_raise_lines|].
    intros l H. by right.
  - apply Forall_app. split.
    + apply Forall_reverse. eapply Forall_impl; [apply raises_are_raise_lines|].
      intros l' H. by right.
    + constructor; [left; apply list_elem_of_here|].
      eapply Forall_impl; [apply IH|]. intros l' [H|H]; [left|by right].
      by apply list_elem_of_further.
Qed.

Lemma woven_last t rows final :
  last (woven t rows final).1
  = match final with
    | [] => last rows.*2
    | k :: _ => Some (raise_line k t)
    end.
Proof.
  induction rows as [|[lv l] rows IH]; cbn [woven fst snd fmap list_fmap].
  - destruct final as [|k final]; [done|]. cbn [raises].
    by rewrite reverse_cons, last_snoc.
  - rewrite last_app_cons, !last_cons, IH. by destruct final.
Qed.

Lemma prefix_app p s : String.prefix p (p +:+ s) = true.
Proof.
  induction p as [|c p IH]; [by destruct s|].
  change (String c p +:+ s) with (String c (p +:+ s)). cbn [String.prefix].
  by destruct (Ascii.ascii_dec c c).
Qed.

Lemma raise_line_starts k i :
  startswith (src (raise_line k i)) "raise NotFound('" = true.
Proof. apply prefix_app. Qed.

(** X1.  [optimize] in closed form.  On the empty list it raises
    [IndexError].  Otherwise it returns the lines in their order with their
    indents updated ([adjust]); before each line that starts with [if],
    [elif], [return] or [basket] stands one [raise NotFound] line for every
    level from the indent the line had, plus one, up to the updated indent of
    the line before it, minus one, the deepest first; after the last line
    stands one for every level from its indent minus one down to 1
    ([woven]).  The counter grows by the number of lines inserted. *)
Theorem optimize_weaves TMP line lines :
  optimize TMP [] = Raise (Exn IndexError None)
  ∧ optimize TMP (line :: lines)
    = Ok ((woven TMP
             (adjust (default line (last (line :: lines))) 0 0 (line :: lines))
             (levels 1 (indent
                (default line
                   (last (adjust (default line (last (line :: lines))) 0 0
                                 (line :: lines)).*2))))).1,
          (TMP + (woven TMP
             (adjust (default line (last (line :: lines))) 0 0 (line :: lines))
             (levels 1 (indent
                (default line
                   (last (adjust (default line (last (line :: lines))) 0 0
                                 (line :: lines)).*2))))).2)%nat).
Proof.
  split; [done|].
  assert (is_Some (last (line :: lines))) as [z Hz] by by apply last_is_Some.
  destruct (optimize_woven TMP _ _ Hz) as (prev & Hprev & ->).
  rewrite Hz. change (default line (Some z)) with z. by rewrite Hprev.
Qed.

(** X2.  [optimize] only inserts.  When it returns, the counter has not
    decreased; the list has grown by as many lines as the counter; the texts
    of the given lines are still there, in their order; and every line of the
    result carries the text of a given line or is a [raise NotFound] line. *)
Theorem optimize_only_inserts TMP lines out TMP' :
  optimize TMP lines = Ok (out, TMP') →
  (TMP ≤ TMP')%nat
  ∧ length out = (length lines + (TMP' - TMP))%nat
  ∧ (src <$> lines) `sublist_of` (src <$> out)
  ∧ Forall (λ l, src l ∈ src <$> lines
                 ∨ startswith (src l) "raise NotFound('" = true) out.
Proof.
  intros Hopt. destruct (last lines) as [z|] eqn:Hz.
  2: { unfold optimize in Hopt. by rewrite Hz in Hopt. }
  destruct (optimize_woven TMP _ _ Hz) as (prev & _ & Heq).
  rewrite Heq in Hopt. injection Hopt as <- <-.
  set (rows := adjust z 0 0 lines). set (final := levels 1 (indent prev)).
  split; [lia|]. split.
  { rewrite woven_length. unfold rows. rewrite adjust_length. lia. }
  split.
  { rewrite <-(adjust_src lines z 0 0). apply fmap_sublist, woven_sublist. }
  eapply Forall_impl; [apply woven_lines|].
  intros l [Hl|(k & i & ->)]; [left|right; apply raise_line_starts].
  rewrite <-(adjust_src lines z 0 0). by apply list_elem_of_fmap_2.
Qed.

Lemma optimize_only_inserts_witness :
  (0 ≤ example_optimized.2)%nat
  ∧ length example_optimized.1
    = (length example_source + (example_optimized.2 - 0))%nat
  ∧ (src <$> example_source) `sublist_of` (src <$> example_optimized.1)
  ∧ Forall (λ l, src l ∈ src <$> example_source
                 ∨ startswith (src l) "raise NotFound('" = true)
           example_optimized.1.
Proof.
  apply (optimize_only_inserts 0 example_source).
  vm_compute. reflexivity.
Defined.

(** X3.  Lines without offset are left as they are: when no given line has
    an offset, the given lines themselves, indents included, are in the
    result in their order. *)
Theorem optimize_keeps_lines_without_offset TMP lines out TMP' :
  Forall (λ l, offset l = 0) lines →
  optimize TMP lines = Ok (out, TMP') →
  lines `sublist_of` out.
Proof.
  intros Hoff Hopt. destruct (last lines) as [z|] eqn:Hz.
  2: { unfold optimize in Hopt. by rewrite Hz in Hopt. }
  destruct (optimize_woven TMP _ _ Hz) as (prev & _ & Heq).
  rewrite Heq in Hopt. injection Hopt as <- _.
  rewrite <-(adjust_no_offsets lines z 0 Hoff) at 1. apply woven_sublist.
Qed.

Lemma optimize_keeps_lines_without_offset_witness :
  example_source `sublist_of` example_optimized.1.
Proof.
  apply (optimize_keeps_lines_without_offset 0 example_source
           example_optimized.1 example_optimized.2).
  - vm_compute. repeat constructor.
  - vm_compute. reflexivity.
Defined.

(** X4.  The end of the procedure.  When no given line has an offset, the
    result ends with [raise NotFound] at level 1, bearing the first value
    drawn from the counter, if the last given line is deeper than level 1;
    otherwise nothing is appended and the result ends with the last given
    line. *)
Theorem optimize_last_line TMP lines z out TMP' :
  Forall (λ l, offset l = 0) lines →
  last lines = Some z →
  optimize TMP lines = Ok (out, TMP') →
  last out = Some (if bool_decide (1 < indent z) then raise_line 1 TMP else z).
Proof.
  intros Hoff Hz Hopt.
  destruct (optimize_woven TMP _ _ Hz) as (prev & Hprev & Heq).
  rewrite Heq in Hopt. injection Hopt as <- _.
  rewrite adjust_no_offsets in Hprev by done.
  rewrite Hz in Hprev. injection Hprev as <-.
  rewrite woven_last, adjust_no_offsets by done. case_bool_decide.
  - by rewrite levels_cons by done.
  - by rewrite levels_nil by lia.
Qed.

Lemma optimize_last_line_witness :
  last example_optimized.1 = Some (raise_line 1 0).
Proof.
  apply (optimize_last_line 0 example_source
           (new_Line "return router.dynamic_routes[('users', '<id:int>')], basket" 3)
           example_optimized.1 example_optimized.2).
  - vm_compute. repeat constructor.
  - vm_compute. reflexivity.
  - vm_compute. reflexivity.
Defined.






(** ** The route tables stay sound *)

Lemma add_cases r path handler methods name requirements :
  (∃ e, add r path handler methods name requirements = (Raise e, r))
  ∨ (∃ r' ps, add r path handler methods name requirements = (Ok (), r')
              ∧ split (delimiter r) (strip (delimiter r) path) = Ok ps).
Proof.
  unfold add.
  destruct (negb _ && _); [left; by eexists|].
  destruct (finalized r); [left; by eexists|].
  unfold new_Route.
  destruct (split (delimiter r) (strip (delimiter r) path)) as [ps|e];
    [|left; by eexists].
  right. cbn [parts]. destruct (_ !! KParts ps); by eexists _, _.
Qed.

Lemma table_sound_alter b table objs (f : Route → Route) o :
  (∀ route, parts (f route) = parts route ∧ name (f route) = name route
            ∧ static (f route) = static route) →
  table_sound b table objs → table_sound b table (alter f o objs).
Proof.
  intros Hf Hs k o' Hk. destruct (Hs k o' Hk) as (route & Hr & Hst & Hkey).
  destruct (Hf route) as (Hp & Hn & Hs').
  destruct (decide (o' = o)) as [->|Hne].
  - exists (f route). rewrite lookup_alter_eq, Hr. split; [done|].
    split; [congruence|]. destruct k; congruence.
  - exists route. by rewrite lookup_alter_ne.
Qed.

Lemma table_sound_fresh b table objs o route :
  objs !! o = None →
  table_sound b table objs → table_sound b table (<[o := route]> objs).
Proof.
  intros Hfresh Hs k o' Hk. destruct (Hs k o' Hk) as (route' & Hr & H).
  exists route'. split; [|done]. rewrite lookup_insert_ne; [done|].
  intros ->. congruence.
Qed.

Lemma table_sound_insert b table objs k o route :
  objs !! o = Some route → static route = b →
  match k with KParts ps => parts route = ps | KName n => name route = Some n end →
  table_sound b table objs → table_sound b (<[k := o]> table) objs.
Proof.
  intros Hr Hst Hkey Hs k' o' Hk'. destruct (decide (k' = k)) as [->|Hne].
  - rewrite lookup_insert_eq in Hk'. injection Hk' as <-. by exists route.
  - rewrite lookup_insert_ne in Hk' by done. by apply Hs.
Qed.

Lemma name_truthy_Some name n : name_truthy name = Some n → name = Some n.
Proof.
  destruct name as [n'|]; [|done]. simpl. case_bool_decide; [done|].
  by intros [= ->].
Qed.

Lemma router_sound_tables r path :
  router_sound r ↔
  table_sound (negb (str_in "<" path)) (table_for path r) (objects r)
  ∧ table_sound (str_in "<" path) (other_table path r) (objects r)
  ∧ ∀ o route, objects r !! o = Some route →
      static route = negb (existsb (str_in "<") (parts route)).
Proof.
  unfold router_sound, table_for, other_table.
  destruct (str_in "<" path); simpl; tauto.
Qed.

Lemma add_sound r path handler methods nm reqs :
  str_in "<" (delimiter r) = false →
  router_sound r →
  router_sound (add r path handler methods nm reqs).2.
Proof.
  intros Hd Hsound.
  destruct (add_cases r path handler methods nm reqs)
    as [(e & ->)|(r' & ps & Hadd & Hsplit)]; [done|].
  rewrite Hadd. cbn [snd].
  apply (router_sound_tables r path) in Hsound as (Ht & Ho & Hobj).
  apply (router_sound_tables r' path).
  assert (∀ route, parts (add_handlers (strip (delimiter r) path) handler
                                       (normalize_methods r methods) route)
                   = parts route
                   ∧ name (add_handlers (strip (delimiter r) path) handler
                                        (normalize_methods r methods) route)
                     = name route
                   ∧ static (add_handlers (strip (delimiter r) path) handler
                                          (normalize_methods r methods) route)
                     = static route) as Hkeep
    by (intros route; apply add_handlers_parts).
  destruct (table_for path r !! KParts ps) as [o|] eqn:Hl.
  - destruct (add_existing_route _ _ _ _ _ _ _ _ _ Hsplit Hl Hadd)
      as (Hst & Hdy & Hobj').
    assert (table_for path r' = table_for path r) as ->
      by (unfold table_for; by rewrite Hst, Hdy).
    assert (other_table path r' = other_table path r) as ->
      by (unfold other_table; by rewrite Hst, Hdy).
    rewrite Hobj'. split; [by apply table_sound_alter|].
    split; [by apply table_sound_alter|].
    intros o' route'. destruct (decide (o' = o)) as [->|Hne].
    + rewrite lookup_alter_eq. destruct (objects r !! o) as [route|] eqn:Hr; [|done].
      intros [= <-]. destruct (Hkeep route) as (-> & _ & ->). by eapply Hobj.
    + rewrite lookup_alter_ne by done. apply Hobj.
  - destruct (add_new_route _ _ _ _ _ _ _ _ Hsplit Hl Hadd) as (Htab & Hoth & Hobj').
    cbv zeta in Htab, Hobj'.
    set (o := fresh (dom (objects r))) in *.
    set (route0 := {| parts := ps;
                      static := negb (str_in "<" (strip (delimiter r) path));
                      name := nm; requirements := reqs;
                      handlers := ∅ |}) in *.
    set (route := add_handlers (strip (delimiter r) path) handler
                               (normalize_methods r methods) route0) in *.
    assert (objects r !! o = None) as Hfresh.
    { apply not_elem_of_dom. apply is_fresh. }
    destruct (Hkeep route0) as (Hp & Hn & Hs). fold route in Hp, Hn, Hs.
    cbn [route0 parts name static] in Hp, Hn, Hs.
    assert (objects r' !! o = Some route) as Hro
      by (by rewrite Hobj', lookup_insert_eq).
    assert (static route = negb (str_in "<" path)) as Hs'.
    { rewrite Hs. by rewrite str_in_lt_strip. }
    assert (static route = negb (existsb (str_in "<") (parts route))) as Hs''.
    { rewrite Hs, Hp. unfold split in Hsplit. case_bool_decide as Hne; [done|].
      injection Hsplit as <-.
      rewrite (str_in_lt_split_scan (delimiter r) Hne Hd
                 (strip (delimiter r) path) 0 "" "");
        [done|by destruct (strip (delimiter r) path)|done|done]. }
    rewrite Htab, Hoth. split; [|split].
    + assert (table_sound (negb (str_in "<" path))
                (<[KParts ps := o]> (table_for path r)) (objects r')) as Hparts.
      { eapply table_sound_insert; [done|done|done|].
        rewrite Hobj'. by apply table_sound_fresh. }
      destruct (name_truthy nm) as [n|] eqn:Hname; [|done].
      eapply table_sound_insert; [done|done| |done].
      cbn beta iota. rewrite Hn. by apply name_truthy_Some.
    + rewrite Hobj'. by apply table_sound_fresh.
    + intros o' route'. rewrite Hobj'. destruct (decide (o' = o)) as [->|Hne].
      * rewrite lookup_insert_eq. by intros [= <-].
      * rewrite lookup_insert_ne by done. apply Hobj.
Qed.

Lemma steps_sound E ops : ∀ s,
  str_in "<" (delimiter s.1) = false → router_sound s.1 →
  router_sound (steps E s ops).1.
Proof.
  unfold steps. induction ops as [|o ops IH]; intros s Hd Hsound; [done|].
  cbn [foldl]. apply IH.
  - destruct (steps_keep_parts E [o] s [] 0%nat) as (_ & _ & Hdel & _).
    unfold steps in Hdel. cbn [foldl] in Hdel. by rewrite Hdel.
  - destruct o as [path handler methods name requirements|c|path method];
      cbn [step fst snd].
    + by apply add_sound.
    + pose proof (finalize_attributes E s.1 s.2 c) as (Hst & Hdy & Hob & _).
      destruct (finalize E s.1 s.2 c) as [[res r'] TMP']. cbn [fst snd] in *.
      unfold router_sound in *. by rewrite Hst, Hdy, Hob.
    + done.
Qed.

(** X6.  The tables never dangle.  On a router whose delimiter does not
    hold the placeholder marker, after any sequence of [add], [finalize] and
    [resolve] calls, every entry of [static_routes] refers to a stored static
    route and every entry of [dynamic_routes] to a stored dynamic one; a
    parts key leads to the route with these parts, a name key to a route with
    this name. *)
Theorem tables_stay_sound E default_method allowed_methods delim exc method_exc
    TMP ops :
  str_in "<" delim = false →
  router_sound
    (steps E (new_Router default_method allowed_methods delim exc method_exc, TMP)
           ops).1.
Proof.
  intros Hd. apply steps_sound; [done|].
  split; [|split]; intros k o; cbn; by rewrite lookup_empty.
Qed.

Lemma tables_stay_sound_witness :
  router_sound
    (steps Example.collaborators
           (new_Router "BASE" ["GET"; "POST"] "/" NotFound NotFound, 0%nat)
           [OpAdd "/users/profile" "profile" (MethodsStr "GET") None None;
            OpAdd "/users/<id:int>" "show_user" (MethodsList ["GET"])
                  (Some "user") None;
            OpFinalize true;
            OpAdd "/late" "late" MethodsNone None None]).1.
Proof.
  apply (tables_stay_sound Example.collaborators).
  vm_compute. reflexivity.
Defined.

(** X7.  The two tables share no parts key.  On a router whose delimiter
    does not hold the placeholder marker, after any sequence of operations
    no tuple of parts is a key of both [static_routes] and [dynamic_routes]:
    the static lookup of the matcher never hides a dynamic route with the
    same parts. *)
Theorem tables_share_no_parts E default_method allowed_methods delim exc
    method_exc TMP ops ps o :
  str_in "<" delim = false →
  static_routes
    (steps E (new_Router default_method allowed_methods delim exc method_exc, TMP)
           ops).1 !! KParts ps = Some o →
  dynamic_routes
    (steps E (new_Router default_method allowed_methods delim exc method_exc, TMP)
           ops).1 !! KParts ps = None.
Proof.
  intros Hd Hs.
  destruct (dynamic_routes _ !! KParts ps) as [o'|] eqn:Hdy; [|done]. exfalso.
  assert (router_sound
            (steps E (new_Router default_method allowed_methods delim exc
                                 method_exc, TMP) ops).1) as (Hts & Htd & Hobj).
  { apply steps_sound; [done|].
    split; [|split]; intros k o0; cbn; by rewrite lookup_empty. }
  destruct (Hts _ _ Hs) as (route & Hr & Hst & Hp).
  destruct (Htd _ _ Hdy) as (route' & Hr' & Hst' & Hp').
  rewrite (Hobj _ _ Hr), Hp in Hst. rewrite (Hobj _ _ Hr'), Hp' in Hst'.
  congruence.
Qed.

Lemma tables_share_no_parts_witness :
  dynamic_routes
    (steps Example.collaborators
           (new_Router "BASE" ["GET"; "POST"] "/" NotFound NotFound, 0%nat)
           [OpAdd "/users/profile" "profile" (MethodsStr "GET") None None;
            OpAdd "/users/<id:int>" "show_user" (MethodsList ["GET"])
                  (Some "user") None]).1
    !! KParts ["users"; "profile"] = None.
Proof.
  apply (tables_share_no_parts Example.collaborators "BASE" ["GET"; "POST"] "/"
           NotFound NotFound 0 _ ["users"; "profile"] 0%nat).
  - vm_compute. reflexivity.
  - vm_compute. reflexivity.
Defined.

(** ** Registration, once more *)

Lemma add_handlers_requirements path handler methods : ∀ route,
  requirements (add_handlers path handler methods route) = requirements route.
Proof.
  unfold add_handlers. induction methods as [|m ms IH]; intros route; simpl; [done|].
  by rewrite IH.
Qed.

Lemma add_handlers_lookup path handler methods : ∀ route m,
  handlers (add_handlers path handler methods route) !! (path, m)
  = if bool_decide (m ∈ methods) then Some handler
    else handlers route !! (path, m).
Proof.
  unfold add_handlers. induction methods as [|m0 ms IH]; intros route m.
  - cbn [foldl]. rewrite bool_decide_eq_false_2; [done|]. apply not_elem_of_nil.
  - cbn [foldl]. rewrite IH. destruct (decide (m ∈ ms)) as [Hin|Hnin].
    + rewrite !bool_decide_eq_true_2; [done| |done].
      by apply list_elem_of_further.
    + rewrite (bool_decide_eq_false_2 _ Hnin). cbn [add_handler handlers].
      destruct (decide (m = m0)) as [->|Hne].
      * rewrite lookup_insert_eq, bool_decide_eq_true_2; [done|].
        apply list_elem_of_here.
      * rewrite lookup_insert_ne by congruence.
        rewrite bool_decide_eq_false_2; [done|].
        intros [?|?]%elem_of_cons; done.
Qed.

(** X8.  A merge ignores the name and the requirements.  When the parts of
    the path are already a key of its table, a successful [add] changes no
    table, so its name becomes no key, and the stored route keeps its own
    name, requirements and parts. *)
Theorem add_merge_ignores_name r path handler methods nm reqs r' ps o route :
  split (delimiter r) (strip (delimiter r) path) = Ok ps →
  table_for path r !! KParts ps = Some o →
  objects r !! o = Some route →
  add r path handler methods nm reqs = (Ok (), r') →
  static_routes r' = static_routes r
  ∧ dynamic_routes r' = dynamic_routes r
  ∧ ∃ route',
      objects r' !! o = Some route'
      ∧ name route' = name route
      ∧ requirements route' = requirements route
      ∧ parts route' = parts route.
Proof.
  intros Hsplit Hl Hr Hadd.
  destruct (add_existing_route _ _ _ _ _ _ _ _ _ Hsplit Hl Hadd)
    as (Hst & Hdy & Hobj).
  split; [done|]. split; [done|]. eexists.
  rewrite Hobj, lookup_alter_eq, Hr. split; [done|].
  rewrite add_handlers_requirements.
  destruct (add_handlers_parts (strip (delimiter r) path) handler
              (normalize_methods r methods) route) as (-> & -> & _).
  done.
Qed.

Lemma add_merge_ignores_name_witness :
  static_routes
    (add Example.users_get "users" "create_user" (MethodsStr "POST")
         (Some "creation") (Some [("id", "int")])).2
  = static_routes Example.users_get
  ∧ dynamic_routes
      (add Example.users_get "users" "create_user" (MethodsStr "POST")
           (Some "creation") (Some [("id", "int")])).2
    = dynamic_routes Example.users_get
  ∧ ∃ route',
      objects
        (add Example.users_get "users" "create_user" (MethodsStr "POST")
             (Some "creation") (Some [("id", "int")])).2 !! 0%nat
      = Some route'
      ∧ name route' = None
      ∧ requirements route' = None
      ∧ parts route' = ["users"].
Proof.
  apply (add_merge_ignores_name Example.users_get "users" "create_user"
           (MethodsStr "POST") (Some "creation") (Some [("id", "int")])
           _ ["users"] 0%nat
           {| parts := ["users"]; static := true; name := None;
              requirements := None;
              handlers := {[("users", "GET") := "list_users"]} |}).
  - vm_compute. reflexivity.
  - vm_compute. reflexivity.
  - vm_compute. reflexivity.
  - vm_compute. reflexivity.
Defined.

(** X9.  What is registered can be looked up.  After a successful [add]
    on a router whose table entry for the parts, if any, refers to a stored
    route, the parts of the path are a key of its table, and the route there
    holds the handler under the stripped path and each requested method:
    the default method when none was given. *)
Theorem add_registers_handlers r path handler methods nm reqs r' ps :
  split (delimiter r) (strip (delimiter r) path) = Ok ps →
  (∀ o, table_for path r !! KParts ps = Some o → is_Some (objects r !! o)) →
  add r path handler methods nm reqs = (Ok (), r') →
  ∃ o route',
    table_for path r' !! KParts ps = Some o
    ∧ objects r' !! o = Some route'
    ∧ (∀ m, m ∈ normalize_methods r methods →
            handlers route' !! (strip (delimiter r) path, m) = Some handler)
    ∧ (methods = MethodsNone →
       handlers route' !! (strip (delimiter r) path, DEFAULT_METHOD r)
       = Some handler).
Proof.
  intros Hsplit Hstored Hadd.
  assert (∀ route m, m ∈ normalize_methods r methods →
            handlers (add_handlers (strip (delimiter r) path) handler
                                   (normalize_methods r methods) route)
              !! (strip (delimiter r) path, m) = Some handler) as Hlook.
  { intros route m Hm. by rewrite add_handlers_lookup, bool_decide_eq_true_2. }
  assert (methods = MethodsNone → DEFAULT_METHOD r ∈ normalize_methods r methods)
    as Hdef.
  { intros ->. apply list_elem_of_here. }
  destruct (table_for path r !! KParts ps) as [o|] eqn:Hl.
  - destruct (Hstored o eq_refl) as [route Hr].
    destruct (add_existing_route _ _ _ _ _ _ _ _ _ Hsplit Hl Hadd)
      as (Hst & Hdy & Hobj).
    eexists o, _. split.
    { unfold table_for in *. by rewrite Hst, Hdy. }
    split; [by rewrite Hobj, lookup_alter_eq, Hr|]. split; [by auto|].
    intros Hm. by apply Hlook, Hdef.
  - destruct (add_new_route _ _ _ _ _ _ _ _ Hsplit Hl Hadd) as (Htab & _ & Hobj).
    cbv zeta in Htab, Hobj. eexists _, _. split.
    { rewrite Htab. destruct (name_truthy nm);
        [rewrite lookup_insert_ne by done|]; by rewrite lookup_insert_eq. }
    split; [by rewrite Hobj, lookup_insert_eq|]. split; [by auto|].
    intros Hm. by apply Hlook, Hdef.
Qed.

Lemma add_registers_handlers_witness :
  ∃ o route',
    table_for "/about/" (add (new_Router "BASE" [] "/" NotFound NotFound)
                             "/about/" "about" MethodsNone None None).2
      !! KParts ["about"] = Some o
    ∧ objects (add (new_Router "BASE" [] "/" NotFound NotFound)
                   "/about/" "about" MethodsNone None None).2 !! o
      = Some route'
    ∧ (∀ m, m ∈ normalize_methods (new_Router "BASE" [] "/" NotFound NotFound)
                                  MethodsNone →
            handlers route'
              !! (strip (delimiter (new_Router "BASE" [] "/" NotFound NotFound))
                        "/about/", m) = Some "about")
    ∧ (MethodsNone = MethodsNone →
       handlers route'
         !! (strip (delimiter (new_Router "BASE" [] "/" NotFound NotFound))
                   "/about/",
             DEFAULT_METHOD (new_Router "BASE" [] "/" NotFound NotFound))
       = Some "about").
Proof.
  apply (add_registers_handlers (new_Router "BASE" [] "/" NotFound NotFound)
           "/about/" "about" MethodsNone None None _ ["about"]).
  - vm_compute. reflexivity.
  - intros o. vm_compute. discriminate.
  - vm_compute. reflexivity.
Defined.

(** X10.  Registrations are permanent.  Whatever operations follow, a
    parts key of a table stays a key of it and refers to the same [Route]
    object: no operation removes a route or replaces it. *)
Theorem registered_parts_stay E s ops path ps o :
  table_for path s.1 !! KParts ps = Some o →
  table_for path (steps E s ops).1 !! KParts ps = Some o.
Proof.
  destruct (steps_keep_parts E ops s ps o) as (Hs & Hd & _).
  unfold table_for. destruct (str_in "<" path); auto.
Qed.

Lemma registered_parts_stay_witness :
  table_for "/users/profile"
    (steps Example.collaborators (Example.registered NotFound, 0%nat)
           [OpFinalize true;
            OpAdd "/users/profile" "other" (MethodsStr "GET") (Some "p") None;
            OpResolve "/users/profile" None;
            OpFinalize false]).1
    !! KParts ["users"; "profile"] = Some 0%nat.
Proof.
  apply (registered_parts_stay Example.collaborators
           (Example.registered NotFound, 0%nat)).
  vm_compute. reflexivity.
Defined.

(** ** Resolution, once more *)

Lemma add_find_route r path handler methods nm reqs :
  find_route (add r path handler methods nm reqs).2 = find_route r.
Proof.
  destruct (add_cases r path handler methods nm reqs)
    as [(e & ->)|(r' & ps & Hadd & Hsplit)]; [done|].
  revert Hadd. unfold add.
  destruct (negb _ && _); [done|].
  destruct (finalized r); [done|].
  destruct (new_Route _ _ _ _) as [route|e]; [|done].
  destruct (_ !! KParts (parts route)); intros [= <-]; done.
Qed.

Lemma steps_without_compile E ops : ∀ s,
  forallb no_compile ops = true →
  find_route (steps E s ops).1 = find_route s.1
  ∧ delimiter (steps E s ops).1 = delimiter s.1.
Proof.
  unfold steps. induction ops as [|o ops IH]; intros s Hops; [done|].
  cbn [forallb] in Hops. apply andb_prop in Hops as [Ho Hops].
  cbn [foldl]. destruct (IH (step E s o) Hops) as [-> ->].
  destruct o as [path handler methods nm reqs|c|path method]; cbn [step fst snd].
  - rewrite add_find_route.
    by destruct (add_attributes s.1 path handler methods nm reqs) as (-> & _).
  - destruct c; [done|]. unfold finalize, _render.
    destruct (optimize _ _) as [[lines1 TMP1]|e]; done.
  - done.
Qed.

(** X11.  Nothing resolves before the matcher is compiled.  On a router
    with a non-empty delimiter, as long as no [finalize] with compilation has
    been called ([add], [resolve] and [finalize(do_compile=False)] only),
    every [resolve] raises [AttributeError], the attribute [find_route] being
    unset; it does not raise the not-found exception. *)
Theorem resolve_before_compile E default_method allowed_methods delim exc
    method_exc TMP ops path method :
  delim ≠ "" →
  forallb no_compile ops = true →
  resolve E
    (steps E (new_Router default_method allowed_methods delim exc method_exc, TMP)
           ops).1 path method
  = Some (Raise (Exn AttributeError None)).
Proof.
  intros Hd Hops.
  destruct (steps_without_compile E ops
              (new_Router default_method allowed_methods delim exc method_exc, TMP)
              Hops) as [Hf Hdel].
  unfold resolve, resolve_parts, split. rewrite Hf, Hdel. cbn.
  by rewrite bool_decide_eq_false_2.
Qed.

Lemma resolve_before_compile_witness :
  resolve Example.collaborators
    (steps Example.collaborators
           (new_Router "BASE" [] "/" NotFound NotFound, 0%nat)
           [OpAdd "/users/profile" "profile" MethodsNone None None;
            OpFinalize false]).1
    "/users/profile" None
  = Some (Raise (Exn AttributeError None)).
Proof.
  apply (resolve_before_compile Example.collaborators).
  - discriminate.
  - reflexivity.
Defined.

Lemma finalize_static_lookup E r0 TMP r TMP' ps o :
  finalize E r0 TMP true = (Ok (), r, TMP') →
  static_routes r !! KParts ps = Some o →
  ∃ code,
    find_route r = Some code
    ∧ call_find_route E r code ps = Some (Ok (Some (o, None))).
Proof.
  unfold finalize, _render. intros Hfin Ho.
  destruct (optimize _ _) as [[lines1 TMP1]|e] eqn:Hopt; [|done].
  destruct (compile _) as [code|e] eqn:Hcomp; [|done].
  injection Hfin as <- <-.
  change (static_routes r0 !! KParts ps = Some o) in Ho.
  assert (bool_decide (static_routes r0 = ∅) = false) as Hs.
  { apply bool_decide_eq_false. intros Hemp. by rewrite Hemp in Ho. }
  change (static_routes (set_finalized true r0)) with (static_routes r0) in Hopt.
  rewrite Hs in Hopt. unfold render_lines in Hopt. cbn [negb app] in Hopt.
  apply optimize_static_head in Hopt as (rest & ->).
  unfold compile in Hcomp.
  change (List.filter render (header_line :: static_if_line :: static_return_line :: rest))
    with (header_line :: static_if_line :: static_return_line :: List.filter render rest)
    in Hcomp.
  cbv iota in Hcomp.
  destruct (_ && blocks_ok _) in Hcomp; [|done]. injection Hcomp as <-.
  eexists. split; [done|]. unfold call_find_route.
  rewrite run_static_lookup.
  - unfold matcher_return. rewrite bool_decide_eq_true_2 by done.
    change (static_routes (set_find_route _ _)) with (static_routes r0).
    by rewrite Ho.
  - unfold matcher_cond. rewrite bool_decide_eq_true_2 by done.
    change (static_routes (set_find_route _ _)) with (static_routes r0).
    rewrite Ho. by apply bool_decide_eq_true_2.
Qed.

(** X12.  Resolving a static route.  After a successful [finalize], when
    the segments of the path are a key of [static_routes] that refers to a
    static route, [resolve] returns that route with no positional argument
    and no parameter; the codec is not consulted, and the handler is what
    [get_handler] gives for the path as requested, leading delimiter
    included; what [get_handler] raises reaches the caller. *)
Theorem resolve_static_route E r0 TMP r TMP' path method ps o route :
  finalize E r0 TMP true = (Ok (), r, TMP') →
  resolve_parts r path = Ok ps →
  static_routes r !! KParts ps = Some o →
  objects r !! o = Some route →
  static route = true →
  resolve E r path method
  = Some (match get_handler E r route path method with
          | Raise e => Raise e
          | Ok handler => Ok (o, handler, [], ∅)
          end).
Proof.
  intros Hfin Hps Ho Hr Hs.
  destruct (finalize_static_lookup E r0 TMP r TMP' ps o Hfin Ho)
    as (code & Hcode & Hcall).
  unfold resolve. rewrite Hps, Hcode, Hcall, Hr. unfold resolve_route.
  by rewrite Hs.
Qed.

Lemma resolve_static_route_witness :
  resolve Example.collaborators (Example.finalized_router NotFound)
          "/users/profile" (Some "POST")
  = Some (match get_handler Example.collaborators
                  (Example.finalized_router NotFound)
                  {| parts := ["users"; "profile"]; static := true; name := None;
                     requirements := None;
                     handlers := {[("users/profile", "GET") := "profile"]} |}
                  "/users/profile" (Some "POST") with
          | Raise e => Raise e
          | Ok handler => Ok (0%nat, handler, [], ∅)
          end).
Proof.
  apply (resolve_static_route Example.collaborators (Example.registered NotFound)
           0 (Example.finalized_router NotFound) 2 "/users/profile" (Some "POST")
           ["users"; "profile"] 0%nat).
  - vm_compute. reflexivity.
  - vm_compute. reflexivity.
  - vm_compute. reflexivity.
  - vm_compute. reflexivity.
  - reflexivity.
Defined.

(** X13.  Only [ValueError] is converted.  When the matcher returns a
    dynamic route and the codec raises an exception that is no [ValueError],
    [resolve] raises that very exception, not [self.exception]. *)
Theorem codec_error_propagates E r path method ps code o route basket e :
  resolve_parts r path = Ok ps →
  find_route r = Some code →
  call_find_route E r code ps = Some (Ok (Some (o, basket))) →
  objects r !! o = Some route →
  static route = false →
  parse_parameter_basket E route basket = Raise e →
  is_ValueError (exn_cls e) = false →
  resolve E r path method = Some (Raise e).
Proof.
  intros Hps Hcode Hcall Ho Hs Hparse He.
  unfold resolve. rewrite Hps, Hcode, Hcall, Ho. unfold resolve_route.
  by rewrite Hs, Hparse, He.
Qed.

Lemma codec_error_propagates_witness :
  resolve failing_codec_collaborators (Example.finalized_router NotFound)
          "/users/42" None
  = Some (Raise (Exn KeyError None)).
Proof.
  eapply (codec_error_propagates failing_codec_collaborators
            (Example.finalized_router NotFound) "/users/42" None).
  - vm_compute. reflexivity.
  - vm_compute. reflexivity.
  - vm_compute. reflexivity.
  - vm_compute. reflexivity.
  - vm_compute. reflexivity.
  - vm_compute. reflexivity.
  - vm_compute. reflexivity.
Defined.

(** X14.  A missing handler is not a missing route.  When the matcher
    returns a route and [get_handler] raises for it, on the requested path
    for a static route and on the canonical path of the codec for a dynamic
    one, [resolve] raises that exception as it is. *)
Theorem handler_error_propagates E r path method ps code o route basket e :
  resolve_parts r path = Ok ps →
  find_route r = Some code →
  call_find_route E r code ps = Some (Ok (Some (o, basket))) →
  objects r !! o = Some route →
  (static route = true ∧ get_handler E r route path method = Raise e)
  ∨ (static route = false
     ∧ ∃ params raw_path,
         parse_parameter_basket E route basket = Ok (params, raw_path)
         ∧ get_handler E r route raw_path method = Raise e) →
  resolve E r path method = Some (Raise e).
Proof.
  intros Hps Hcode Hcall Ho Hcase.
  unfold resolve. rewrite Hps, Hcode, Hcall, Ho. unfold resolve_route.
  destruct Hcase as [[-> ->]|(-> & params & raw & -> & ->)]; done.
Qed.

Lemma handler_error_propagates_witness :
  resolve Example.collaborators
          (Example.finalized_router (UserError "Missing" Exception))
          "/users/42" (Some "POST")
  = Some (Raise (Exn NotFound None)).
Proof.
  eapply (handler_error_propagates Example.collaborators
            (Example.finalized_router (UserError "Missing" Exception))
            "/users/42" (Some "POST")).
  - vm_compute. reflexivity.
  - vm_compute. reflexivity.
  - vm_compute. reflexivity.
  - vm_compute. reflexivity.
  - right. split; [vm_compute; reflexivity|]. eexists _, _.
    split; vm_compute; reflexivity.
Defined.

(** ** A block that ends without a [return] *)

